(** * memcache: a shallow embedding of the Go client and its checked properties

    The development follows the three layers of the package:
    - [Conn]   (conn.go): one TCP stream with reconnect-and-retry;
    - [Server]: text-protocol framing over a [Conn];
    - [Client]: hash routing and the command set.

    Conventions.
    - A Go [string] and a Go [[]byte] are both byte sequences; they are
      modelled by [string], whose characters are 8-bit [ascii] values.
    - Go's [int] is 64 bits wide (the gc compiler on amd64 and arm64);
      [uint32] and [uint64] values are [Z] with the wrap-around written out.
    - A Go function returning [(x T, err error)] returns a pair
      [T * option error].  Where [x] is a pointer and exactly one of the two
      is nil on every path ([net.Dial], [NewConn], [NewServer], [NewClient],
      [pickServer]), it returns a sum: [inl x] or [inr err].
    - The network is an arbitrary deterministic environment: a function from
      the history of socket calls to the outcome of the newest call.  Every
      socket call is appended to a log, so that "how often" is a statement
      about the log.
    - Run-time panics of Go (nil dereference, slice bounds) are a distinct
      result [Panic]; loops that the network can keep alive forever take a
      fuel argument and answer [OutOfFuel] when it is exhausted. *)

From Stdlib Require Import ZArith String Ascii List Bool Lia DecimalString.
From stdpp Require Import gmap strings list fin_maps.
Import ListNotations.

Local Open Scope string_scope.
Local Open Scope Z_scope.

(** ** Errors (errors.go, and the errors of the libraries the package calls) *)

Inductive error : Type :=
| ErrEmptyAddresses
| ErrStoreFailed
| ErrWriteFailed
| ErrReadFailed
| ErrNotFound
| ErrUnexpectedResponse
| ErrInternal
| ErrNoServers
| NetError (msg : string)          (* an error value made by package net *)
| ErrNoProgress                    (* io.ErrNoProgress, set by bufio *)
| ErrBufferFull                    (* bufio.ErrBufferFull *)
| NumError (fn : string) (why : string)  (* *strconv.NumError *)
| Join (e1 e2 : error).            (* errors.Join(e1, e2), both non-nil *)

(** ** The network *)

(** A [handle] names one [net.Conn] value returned by [net.Dial]. *)
Definition handle := nat.

Inductive event : Type :=
| EvDial (address : string)
| EvClose (h : handle)
| EvWrite (h : handle) (b : string)
| EvRead (h : handle) (len : nat).

(** What the environment answers to one call.  [Dial] looks at [out_err]
    only, [Write] at [out_n] and [out_err], [Read] at [out_data] and
    [out_err]. *)
Record outcome : Type := mkOutcome {
  out_n : Z;
  out_data : string;
  out_err : option string
}.

Record World : Type := mkWorld {
  oracle : list event -> outcome;
  log : list event
}.

(** ** Results and the state monad over the world *)

Inductive res (A : Type) : Type :=
| Val (a : A)
| Panic (why : string)
| OutOfFuel.
Arguments Val {A} a.
Arguments Panic {A} why.
Arguments OutOfFuel {A}.

Definition M (A : Type) : Type := World -> res A * World.

Definition ret {A} (a : A) : M A := fun w => (Val a, w).

Definition bind {A B} (m : M A) (k : A -> M B) : M B :=
  fun w =>
    match m w with
    | (Val a, w') => k a w'
    | (Panic why, w') => (Panic why, w')
    | (OutOfFuel, w') => (OutOfFuel, w')
    end.

Definition panic {A} (why : string) : M A := fun w => (Panic why, w).
Definition out_of_fuel {A} : M A := fun w => (OutOfFuel, w).

Declare Scope go_scope.
Delimit Scope go_scope with go.
Notation "'let*' p := m 'in' k" := (bind m (fun p => k))
  (at level 10, p pattern, m at level 100, k at level 200) : go_scope.
Local Open Scope go_scope.

Definition nil_deref : string :=
  "invalid memory address or nil pointer dereference".

(** One call to the environment: log it, then ask the oracle. *)
Definition call (ev : event) : M outcome :=
  fun w =>
    let h := (log w ++ [ev])%list in
    (Val (oracle w h), mkWorld (oracle w) h).

(** [net.Dial("tcp", address)]: the new stream is named after the position
    of its dial in the log, so no two dials return the same handle. *)
Definition Dial (address : string) : M (handle + error) :=
  fun w =>
    let h := List.length (log w) in
    (let* o := call (EvDial address) in
     match out_err o with
     | None => ret (inl h)
     | Some msg => ret (inr (NetError msg))
     end) w.

(** Methods of the interface value [c.conn]; the receiver may be nil. *)
Definition stream_Close (s : option handle) : M unit :=
  match s with
  | None => panic nil_deref
  | Some h => let* _ := call (EvClose h) in ret tt
  end.

Definition err_of (o : outcome) : option error :=
  match out_err o with
  | None => None
  | Some msg => Some (NetError msg)
  end.

Definition stream_Write (s : option handle) (b : string) : M (Z * option error) :=
  match s with
  | None => panic nil_deref
  | Some h => let* o := call (EvWrite h b) in ret (out_n o, err_of o)
  end.

(** Byte-sequence helpers. *)
Fixpoint str_take (n : nat) (s : string) : string :=
  match n, s with
  | S n', String c s' => String c (str_take n' s')
  | _, _ => EmptyString
  end.

Fixpoint str_drop (n : nat) (s : string) : string :=
  match n, s with
  | S n', String _ s' => str_drop n' s'
  | _, _ => s
  end.

(** [make([]byte, n)]: a zeroed buffer. *)
Fixpoint zeros (n : nat) : string :=
  match n with
  | O => EmptyString
  | S n' => String zero (zeros n')
  end.

(** The bytes an environment's answer puts into a buffer of [n] bytes: an
    io.Reader stores no more than the buffer holds. *)
Definition delivered (n : nat) (o : outcome) : string := str_take n (out_data o).

(** A buffer after [d] was stored at its front. *)
Definition put (p d : string) : string := d ++ str_drop (String.length d) p.

(** [Read(p)]: the call returns the number of bytes stored, the buffer as it
    now is, and the error. *)
Definition stream_Read (s : option handle) (p : string)
  : M (nat * string * option error) :=
  match s with
  | None => panic nil_deref
  | Some h =>
      let* o := call (EvRead h (String.length p)) in
      let d := delivered (String.length p) o in
      ret (String.length d, put p d, err_of o)
  end.

(** ** conn.go *)

Record Conn : Type := mkConn {
  addr : string;
  conn : option handle
}.

Definition NewConn (address : string) : M (Conn + error) :=
  let* r := Dial address in
  match r with
  | inr e => ret (inr e)
  | inl c => ret (inl (mkConn address (Some c)))
  end.

Definition connect (c : Conn) : M (option error * Conn) :=
  match conn c with
  | Some _ => ret (None, c)
  | None =>
      let* r := Dial (addr c) in
      match r with
      | inr e => ret (Some e, c)
      | inl s => ret (None, mkConn (addr c) (Some s))
      end
  end.

Definition reconnect (c : Conn) : M (option error * Conn) :=
  let* c := match conn c with
            | Some _ =>
                let* _ := stream_Close (conn c) in
                ret (mkConn (addr c) None)
            | None => ret c
            end in
  connect c.

Definition Conn_Write (c : Conn) (b : string) : M (Z * option error * Conn) :=
  let* (n, err) := stream_Write (conn c) b in
  match err with
  | Some _ =>
      let* (err, c) := reconnect c in
      match err with
      | Some e => ret (n, Some e, c)
      | None =>
          let* (n, err) := stream_Write (conn c) b in
          ret (n, err, c)
      end
  | None => ret (n, None, c)
  end.

Definition Conn_Read (c : Conn) (p : string)
  : M (nat * string * option error * Conn) :=
  let* (n, p, err) := stream_Read (conn c) p in
  match err with
  | Some _ =>
      let* (err, c) := reconnect c in
      match err with
      | Some e => ret (n, p, Some e, c)
      | None =>
          let* (n, p, err) := stream_Read (conn c) p in
          ret (n, p, err, c)
      end
  | None => ret (n, p, None, c)
  end.

(** ** Library functions on byte strings (strings, strconv, fmt, hash/crc32) *)

Definition byte_of (c : ascii) : Z := Z.of_N (N_of_ascii c).
Definition bytes_of (s : string) : list Z := List.map byte_of (list_ascii_of_string s).

Definition LF : ascii := ascii_of_nat 10.
Definition CR : ascii := ascii_of_nat 13.
Definition CRLF : string := String CR (String LF EmptyString).

(** Width in bytes of the white-space rune a byte sequence starts with, 0
    when it starts with none.  The runes are those of [unicode.IsSpace] in
    their UTF-8 encoding: the six ASCII ones, U+0085, U+00A0, U+1680,
    U+2000..U+200A, U+2028, U+2029, U+202F, U+205F and U+3000. *)
Definition space_width (b : list Z) : nat :=
  match b with
  | 9 :: _ | 10 :: _ | 11 :: _ | 12 :: _ | 13 :: _ | 32 :: _ => 1%nat
  | 194 :: 133 :: _ | 194 :: 160 :: _ => 2%nat
  | 225 :: 154 :: 128 :: _ => 3%nat
  | 226 :: 128 :: c :: _ =>
      if ((128 <=? c) && (c <=? 138)) || (c =? 168) || (c =? 169) || (c =? 175)
      then 3%nat else 0%nat
  | 226 :: 129 :: 159 :: _ => 3%nat
  | 227 :: 128 :: 128 :: _ => 3%nat
  | _ => 0%nat
  end.

(** The same for the rune a byte sequence ends with; the argument is the
    sequence reversed. *)
Definition space_width_last (r : list Z) : nat :=
  match r with
  | 9 :: _ | 10 :: _ | 11 :: _ | 12 :: _ | 13 :: _ | 32 :: _ => 1%nat
  | 133 :: 194 :: _ | 160 :: 194 :: _ => 2%nat
  | 128 :: 154 :: 225 :: _ => 3%nat
  | 159 :: 129 :: 226 :: _ => 3%nat
  | 128 :: 128 :: 227 :: _ => 3%nat
  | c :: 128 :: 226 :: _ =>
      if ((128 <=? c) && (c <=? 138)) || (c =? 168) || (c =? 169) || (c =? 175)
      then 3%nat else 0%nat
  | _ => 0%nat
  end.

Fixpoint trim_left (fuel : nat) (s : string) : string :=
  match fuel with
  | O => s
  | S fuel' =>
      match space_width (bytes_of (str_take 3 s)) with
      | O => s
      | w => trim_left fuel' (str_drop w s)
      end
  end.

Fixpoint trim_right (fuel : nat) (s : string) : string :=
  match fuel with
  | O => s
  | S fuel' =>
      let n := String.length s in
      match space_width_last (List.rev (bytes_of (str_drop (n - 3) s))) with
      | O => s
      | w => trim_right fuel' (str_take (n - w) s)
      end
  end.

(** [strings.TrimSpace]: all leading and trailing white-space runes go. *)
Definition TrimSpace (s : string) : string :=
  let s := trim_left (String.length s) s in
  trim_right (String.length s) s.

(** [strings.Split(s, sep)] for a one-byte separator: one more part than
    there are separators. *)
Fixpoint Split (s : string) (sep : ascii) : list string :=
  match s with
  | EmptyString => [EmptyString]
  | String c s' =>
      if Ascii.eqb c sep then EmptyString :: Split s' sep
      else match Split s' sep with
           | p :: ps => String c p :: ps
           | [] => [String c EmptyString]
           end
  end.

(** Cuts a string at its first separator, if there is one. *)
Fixpoint cut (s : string) (sep : ascii) : option (string * string) :=
  match s with
  | EmptyString => None
  | String c s' =>
      if Ascii.eqb c sep then Some (EmptyString, s')
      else match cut s' sep with
           | Some (a, b) => Some (String c a, b)
           | None => None
           end
  end.

(** [strings.SplitN(s, sep, n)] for a one-byte separator and [n >= 0]: at
    most [n] parts, the last one the unsplit rest. *)
Fixpoint SplitN (s : string) (sep : ascii) (n : nat) : list string :=
  match n with
  | O => []
  | S O => [s]
  | S n' =>
      match cut s sep with
      | Some (a, b) => a :: SplitN b sep n'
      | None => [s]
      end
  end.

Definition is_digit (c : ascii) : bool :=
  let b := byte_of c in (48 <=? b) && (b <=? 57).

Definition all_digits (s : string) : bool :=
  forallb is_digit (list_ascii_of_string s).

(** Value of a string of decimal digits. *)
Definition digits_value (s : string) : Z :=
  fold_left (fun acc c => 10 * acc + (byte_of c - 48)) (list_ascii_of_string s) 0.

Definition maxInt64 : Z := 2 ^ 63 - 1.
Definition minInt64 : Z := - 2 ^ 63.
Definition maxUint64 : Z := 2 ^ 64 - 1.

(** [strconv.ParseUint(s, 10, 64)]. *)
Definition ParseUint (s : string) : Z * option error :=
  match s with
  | EmptyString => (0, Some (NumError "ParseUint" "invalid syntax"))
  | _ =>
      if all_digits s then
        let v := digits_value s in
        if v <=? maxUint64 then (v, None)
        else (maxUint64, Some (NumError "ParseUint" "value out of range"))
      else (0, Some (NumError "ParseUint" "invalid syntax"))
  end.

(** [strconv.Atoi(s)]: an optional sign, then decimal digits only, within
    the range of [int]. *)
Definition Atoi (s : string) : Z * option error :=
  let '(neg, body) :=
    match s with
    | String "-" s' => (true, s')
    | String "+" s' => (false, s')
    | _ => (false, s)
    end in
  match body with
  | EmptyString => (0, Some (NumError "Atoi" "invalid syntax"))
  | _ =>
      if all_digits body then
        let v := digits_value body in
        if neg then
          if v <=? 2 ^ 63 then (- v, None)
          else (minInt64, Some (NumError "Atoi" "value out of range"))
        else
          if v <=? maxInt64 then (v, None)
          else (maxInt64, Some (NumError "Atoi" "value out of range"))
      else (0, Some (NumError "Atoi" "invalid syntax"))
  end.

(** The verb [%d] of [fmt.Sprintf] applied to an integer. *)
Definition fmt_d (n : Z) : string := NilZero.string_of_int (Z.to_int n).

(** Longest prefix of decimal digits, and the rest. *)
Fixpoint span_digits (s : string) : string * string :=
  match s with
  | EmptyString => (EmptyString, EmptyString)
  | String c s' =>
      if is_digit c then let '(d, r) := span_digits s' in (String c d, r)
      else (EmptyString, s)
  end.

(** [SkipSpace] of fmt's scanner as [Sscanf] runs it (a newline is not
    space there): [None] when it stops on a newline. *)
Fixpoint SkipSpace (fuel : nat) (s : string) : option string :=
  match fuel with
  | O => Some s
  | S fuel' =>
      match s with
      | EmptyString => Some s
      | String c s' =>
          if Ascii.eqb c LF then None
          else if Ascii.eqb c CR && String.prefix (String LF EmptyString) s'
          then SkipSpace fuel' s'
          else match space_width (bytes_of (str_take 3 s)) with
               | O => Some s
               | w => SkipSpace fuel' (str_drop w s)
               end
      end
  end.

(** [fmt.Sscanf(s, "%d", &v)] with [v] a [uint64]: the value stored in
    [v], or [None] when the scan fails before storing.  The error result of
    [Sscanf] is not modelled: no caller in the package looks at it. *)
Definition Sscanf_d_uint64 (s : string) : option Z :=
  match SkipSpace (String.length s) s with
  | None => None
  | Some s =>
      let '(tok, _) := span_digits s in
      match tok with
      | EmptyString => None
      | _ => match ParseUint tok with
             | (v, None) => Some v
             | (_, Some _) => None
             end
      end
  end.

(** [crc32.ChecksumIEEE]: the reflected CRC-32 with polynomial 0xEDB88320,
    initial value and final xor 0xFFFFFFFF, a bit at a time. *)
Definition crc32_bit (crc : Z) : Z :=
  if Z.testbit crc 0 then Z.lxor (Z.shiftr crc 1) 3988292384
  else Z.shiftr crc 1.

Definition crc32_byte (crc : Z) (b : Z) : Z :=
  Nat.iter 8 crc32_bit (Z.lxor crc b).

Definition ChecksumIEEE (data : string) : Z :=
  Z.lxor (fold_left crc32_byte (bytes_of data) 4294967295) 4294967295.

(** ** bufio.Reader over a [Conn]

    The reader's window [b.buf[b.r:b.w]] of unread bytes is [buffered]; the
    positions [b.r] and [b.w] themselves matter only through its length.
    The underlying reader [b.rd] is the server's [*Conn]: the reader carries
    it, and hands it back changed when a read reconnected. *)

Definition defaultBufSize : nat := 4096.
Definition maxConsecutiveEmptyReads : nat := 100.

Record Reader : Type := mkReader {
  rd : Conn;
  buffered : string;
  rerr : option error
}.

Definition NewReader (c : Conn) : Reader := mkReader c EmptyString None.

(** Position of the first occurrence of a byte ([bytes.IndexByte]). *)
Fixpoint IndexByte (s : string) (c : ascii) : option nat :=
  match s with
  | EmptyString => None
  | String d s' =>
      if Ascii.eqb d c then Some O
      else match IndexByte s' c with
           | Some i => Some (S i)
           | None => None
           end
  end.

(** The loop of [fill]: one read into the free tail of the buffer, again
    while it returns neither bytes nor an error, at most [i] times. *)
Fixpoint fill_loop (i : nat) (b : Reader) : M Reader :=
  match i with
  | O => ret (mkReader (rd b) (buffered b) (Some ErrNoProgress))
  | S i' =>
      let* (n, p, err, c) :=
        Conn_Read (rd b) (zeros (defaultBufSize - String.length (buffered b))) in
      let b := mkReader c (buffered b ++ str_take n p) (rerr b) in
      match err with
      | Some e => ret (mkReader (rd b) (buffered b) (Some e))
      | None => if (0 <? n)%nat then ret b else fill_loop i' b
      end
  end.

Definition fill (b : Reader) : M Reader :=
  if (defaultBufSize <=? String.length (buffered b))%nat
  then panic "bufio: tried to fill full buffer"
  else fill_loop maxConsecutiveEmptyReads b.

(** [ReadSlice]: [s] is the search start, the part of the window already
    known to hold no delimiter. *)
Fixpoint ReadSlice_loop (fuel : nat) (delim : ascii) (s : nat) (b : Reader)
  : M (string * option error * Reader) :=
  match fuel with
  | O => out_of_fuel
  | S fuel' =>
      match IndexByte (str_drop s (buffered b)) delim with
      | Some i =>
          let i := (i + s)%nat in
          ret (str_take (i + 1) (buffered b), None,
               mkReader (rd b) (str_drop (i + 1) (buffered b)) (rerr b))
      | None =>
          match rerr b with
          | Some e =>
              ret (buffered b, Some e, mkReader (rd b) EmptyString None)
          | None =>
              if (defaultBufSize <=? String.length (buffered b))%nat
              then ret (buffered b, Some ErrBufferFull,
                        mkReader (rd b) EmptyString (rerr b))
              else
                let s := String.length (buffered b) in
                let* b := fill b in
                ReadSlice_loop fuel' delim s b
          end
      end
  end.

Definition ReadSlice (fuel : nat) (b : Reader) (delim : ascii)
  : M (string * option error * Reader) :=
  ReadSlice_loop fuel delim O b.

(** [collectFragments]: full buffers are accumulated while [ReadSlice]
    answers [ErrBufferFull]. *)
Fixpoint collectFragments (fuel : nat) (full : string) (b : Reader) (delim : ascii)
  : M (string * string * option error * Reader) :=
  match fuel with
  | O => out_of_fuel
  | S fuel' =>
      let* (frag, e, b) := ReadSlice fuel b delim in
      match e with
      | None => ret (full, frag, None, b)
      | Some ErrBufferFull => collectFragments fuel' (full ++ frag) b delim
      | Some e => ret (full, frag, Some e, b)
      end
  end.

Definition ReadString (fuel : nat) (b : Reader) (delim : ascii)
  : M (string * option error * Reader) :=
  let* (full, frag, err, b) := collectFragments fuel EmptyString b delim in
  ret (full ++ frag, err, b).

(** [copy(p, src)]: the count and the destination afterwards. *)
Definition copy (p src : string) : nat * string :=
  let n := Nat.min (String.length p) (String.length src) in
  (n, str_take n src ++ str_drop n p).

(** [Reader.Read(p)]: at most one read of the underlying reader, so the
    count may be less than [len(p)]. *)
Definition Reader_Read (b : Reader) (p : string)
  : M (nat * string * option error * Reader) :=
  let finish (b : Reader) :=
    let '(n, p) := copy p (buffered b) in
    ret (n, p, None, mkReader (rd b) (str_drop n (buffered b)) (rerr b)) in
  match p with
  | EmptyString =>
      if (0 <? String.length (buffered b))%nat then ret (O, p, None, b)
      else ret (O, p, rerr b, mkReader (rd b) (buffered b) None)
  | _ =>
      match buffered b with
      | EmptyString =>
          match rerr b with
          | Some e => ret (O, p, Some e, mkReader (rd b) EmptyString None)
          | None =>
              if (defaultBufSize <=? String.length p)%nat then
                let* (n, p, err, c) := Conn_Read (rd b) p in
                ret (n, p, err, mkReader c EmptyString None)
              else
                let* (n, q, err, c) := Conn_Read (rd b) (zeros defaultBufSize) in
                if (n =? 0)%nat then ret (O, p, err, mkReader c EmptyString None)
                else finish (mkReader c (str_take n q) err)
          end
      | _ => finish b
      end
  end.

(** ** The server session ([Server] and its methods)

    The mutex of a [Server] serialises concurrent callers; the embedding is
    sequential and leaves it out. *)

Record Server : Type := mkServer {
  Address : string;
  server_conn : Conn
}.

Definition NewServer (address : string) : M (Server + error) :=
  let* r := NewConn address in
  match r with
  | inr e => ret (inr e)
  | inl c => ret (inl (mkServer address c))
  end.

Definition Server_WriteCommand (fuel : nat) (s : Server) (cmd : string)
  : M (string * option error * Server) :=
  let* (_, err, c) := Conn_Write (server_conn s) cmd in
  match err with
  | Some e => ret (EmptyString, Some (Join ErrWriteFailed e), mkServer (Address s) c)
  | None =>
      let reader := NewReader c in
      let* (response, err, reader) := ReadString fuel reader LF in
      let s := mkServer (Address s) (rd reader) in
      match err with
      | Some e => ret (EmptyString, Some (Join ErrReadFailed e), s)
      | None => ret (TrimSpace response, None, s)
      end
  end.

(** [make([]byte, n)] panics on a negative length and beyond the largest
    allocation of the runtime; memory is otherwise taken to be there. *)
Definition maxAlloc : Z := 2 ^ 48.

Definition wrap_int64 (z : Z) : Z := (z + 2 ^ 63) mod 2 ^ 64 - 2 ^ 63.

Definition make_bytes (n : Z) : M string :=
  if (n <? 0) || (maxAlloc <? n) then panic "makeslice: len out of range"
  else ret (zeros (Z.to_nat n)).

(** [data[:n]] on a slice whose capacity is its length. *)
Definition slice_to (data : string) (n : Z) : M string :=
  if (n <? 0) || (Z.of_nat (String.length data) <? n)
  then panic "slice bounds out of range"
  else ret (str_take (Z.to_nat n) data).

Definition Server_GetValue (fuel : nat) (s : Server) (key : string) (withCAS : bool)
  : M (string * Z * option error * Server) :=
  let cmd := if withCAS then "gets " ++ key ++ CRLF else "get " ++ key ++ CRLF in
  let* (_, err, c) := Conn_Write (server_conn s) cmd in
  match err with
  | Some e => ret (EmptyString, 0, Some (Join ErrWriteFailed e), mkServer (Address s) c)
  | None =>
      let reader := NewReader c in
      let* (line, err, reader) := ReadString fuel reader LF in
      let s := mkServer (Address s) (rd reader) in
      match err with
      | Some e => ret (EmptyString, 0, Some (Join ErrReadFailed e), s)
      | None =>
          let line := TrimSpace line in
          if String.eqb line "END" then ret (EmptyString, 0, Some ErrNotFound, s)
          else
            let parts := Split line " " in
            if (List.length parts <? 4)%nat || negb (String.eqb (nth 0 parts "") "VALUE")
            then ret (EmptyString, 0, Some ErrUnexpectedResponse, s)
            else
              let after_cas (cas : Z) :=
                let '(byteCount, err) := Atoi (nth 3 parts "") in
                match err with
                | Some e => ret (EmptyString, cas, Some (Join ErrInternal e), s)
                | None =>
                    let* data := make_bytes (wrap_int64 (byteCount + 2)) in
                    let* (_, data, err, reader) := Reader_Read reader data in
                    let s := mkServer (Address s) (rd reader) in
                    match err with
                    | Some e => ret (EmptyString, cas, Some (Join ErrReadFailed e), s)
                    | None =>
                        let* value := slice_to data byteCount in
                        let* (endLine, err, reader) := ReadString fuel reader LF in
                        let s := mkServer (Address s) (rd reader) in
                        match err with
                        | Some e => ret (value, cas, Some (Join ErrReadFailed e), s)
                        | None =>
                            if negb (String.eqb (TrimSpace endLine) "END")
                            then ret (value, cas, Some ErrUnexpectedResponse, s)
                            else ret (value, cas, None, s)
                        end
                    end
                end in
              if withCAS then
                if (List.length parts <? 5)%nat
                then ret (EmptyString, 0, Some ErrUnexpectedResponse, s)
                else
                  let '(cas, err) := ParseUint (nth 4 parts "") in
                  match err with
                  | Some e => ret (EmptyString, cas, Some (Join ErrInternal e), s)
                  | None => after_cas cas
                  end
              else after_cas 0
      end
  end.

(** [GetStats]: a nil map is [None].  The loop reads a line per turn. *)
Fixpoint GetStats_loop (fuel : nat) (reader : Reader)
    (stats : option (gmap string string))
  : M (option (gmap string string) * option error * Reader) :=
  match fuel with
  | O => out_of_fuel
  | S fuel' =>
      let* (line, err, reader) := ReadString fuel reader LF in
      match err with
      | Some e => ret (None, Some (Join ErrReadFailed e), reader)
      | None =>
          let line := TrimSpace line in
          if String.eqb line "END" then ret (stats, None, reader)
          else
            let parts := SplitN line " " 3 in
            if (List.length parts <? 3)%nat
            then ret (None, Some ErrUnexpectedResponse, reader)
            else if negb (String.eqb (nth 0 parts "") "STAT")
            then ret (None, Some ErrUnexpectedResponse, reader)
            else
              let key := nth 1 parts "" in
              let value := nth 2 parts "" in
              let stats := match stats with None => ∅ | Some m => m end in
              GetStats_loop fuel' reader (Some (<[key := value]> stats))
      end
  end.

Definition Server_GetStats (fuel : nat) (s : Server)
  : M (option (gmap string string) * option error * Server) :=
  let cmd := "stats" ++ CRLF in
  let* (_, err, c) := Conn_Write (server_conn s) cmd in
  match err with
  | Some e => ret (None, Some (Join ErrWriteFailed e), mkServer (Address s) c)
  | None =>
      let reader := NewReader c in
      let* (stats, err, reader) := GetStats_loop fuel reader None in
      ret (stats, err, mkServer (Address s) (rd reader))
  end.

(** [Close]: the stream is closed; the connection keeps naming it. *)
Definition Server_Close (s : Server) : M unit :=
  stream_Close (conn (server_conn s)).

(** The loop of [Extra]: every line before the END line is trimmed and
    appended to [res] with a line feed. *)
Fixpoint Extra_loop (fuel : nat) (reader : Reader) (res : string)
  : M (string * option error * Reader) :=
  match fuel with
  | O => out_of_fuel
  | S fuel' =>
      let* (line, err, reader) := ReadString fuel reader LF in
      match err with
      | Some e => ret (res, Some (Join ErrReadFailed e), reader)
      | None =>
          let line := TrimSpace line in
          if String.eqb line "END" then ret (res, None, reader)
          else Extra_loop fuel' reader (res ++ line ++ String LF EmptyString)
      end
  end.

Definition Server_Extra (fuel : nat) (s : Server) (cmd : string)
  : M (string * option error * Server) :=
  let* (_, err, c) := Conn_Write (server_conn s) cmd in
  match err with
  | Some e => ret (EmptyString, Some (Join ErrWriteFailed e), mkServer (Address s) c)
  | None =>
      let reader := NewReader c in
      let* (res, err, reader) := Extra_loop fuel reader EmptyString in
      ret (res, err, mkServer (Address s) (rd reader))
  end.

(** ** The client ([Client] and its methods)

    [servers] is the slice [[]*Server]; the pointer to a server is its index
    in the slice, and a call that changed a server's connection stores the
    server back at that index.  The read-write mutex is left out as the
    server mutex is. *)

Record Client : Type := mkClient {
  servers : list Server
}.

(** The loop of [NewClient] assigns [servers[i]] for [i = 0, 1, ...] in
    turn; [acc] is the part of the slice assigned so far. *)
Fixpoint NewClient_loop (addresses : list string) (acc : list Server)
  : M (Client + error) :=
  match addresses with
  | [] => ret (inl (mkClient acc))
  | a :: rest =>
      let* r := NewServer a in
      match r with
      | inr e => ret (inr e)
      | inl s => NewClient_loop rest (acc ++ [s])%list
      end
  end.

Definition NewClient (addresses : list string) : M (Client + error) :=
  if (List.length addresses =? 0)%nat then ret (inr ErrEmptyAddresses)
  else NewClient_loop addresses [].

(** [c.servers[idx]] with Go's bounds check. *)
Definition index_servers (c : Client) (idx : Z) : res (nat * Server) :=
  if idx <? 0 then Panic "index out of range"
  else match servers c !! Z.to_nat idx with
       | Some s => Val (Z.to_nat idx, s)
       | None => Panic "index out of range"
       end.

(** [pickServer]: the chosen server with its index, or the error. *)
Definition pickServer (c : Client) (key : string)
  : res (nat * Server + error) :=
  if (List.length (servers c) =? 0)%nat then Val (inr ErrNoServers)
  else
    let hash := ChecksumIEEE key in
    let idx := Z.rem (wrap_int64 hash) (Z.of_nat (List.length (servers c))) in
    match index_servers c idx with
    | Val s => Val (inl s)
    | Panic why => Panic why
    | OutOfFuel => OutOfFuel
    end.

Definition lift {A} (r : res A) : M A := fun w => (r, w).

Definition store (c : Client) (i : nat) (s : Server) : Client :=
  mkClient (<[i := s]> (servers c)).

Definition len (s : string) : Z := Z.of_nat (String.length s).

Definition Client_Set (fuel : nat) (c : Client) (key value : string) (expiration : Z)
  : M (option error * Client) :=
  let* p := lift (pickServer c key) in
  match p with
  | inr e => ret (Some e, c)
  | inl (i, server) =>
      let command :=
        "set " ++ key ++ " 0 " ++ fmt_d expiration ++ " " ++ fmt_d (len value)
          ++ CRLF ++ value ++ CRLF in
      let* (resp, err, server) := Server_WriteCommand fuel server command in
      let c := store c i server in
      match err with
      | Some e => ret (Some (Join ErrWriteFailed e), c)
      | None =>
          if negb (String.eqb resp "STORED") then ret (Some ErrStoreFailed, c)
          else ret (None, c)
      end
  end.

Definition Client_Get (fuel : nat) (c : Client) (key : string)
  : M (string * option error * Client) :=
  let* p := lift (pickServer c key) in
  match p with
  | inr e => ret (EmptyString, Some e, c)
  | inl (i, server) =>
      let* (value, _, err, server) := Server_GetValue fuel server key false in
      ret (value, err, store c i server)
  end.

Definition Client_Gets (fuel : nat) (c : Client) (key : string)
  : M (string * Z * option error * Client) :=
  let* p := lift (pickServer c key) in
  match p with
  | inr e => ret (EmptyString, 0, Some e, c)
  | inl (i, server) =>
      let* (value, cas, err, server) := Server_GetValue fuel server key true in
      ret (value, cas, err, store c i server)
  end.

(** The loop shared by [FlushAll] and [Verbosity]: the command goes to the
    servers in slice order; the first failure ends the loop. *)
Fixpoint fanout_loop (fuel : nat) (command : string) (ss : list Server)
  : M (option error * list Server) :=
  match ss with
  | [] => ret (None, [])
  | server :: rest =>
      let* (resp, err, server) := Server_WriteCommand fuel server command in
      match err with
      | Some e => ret (Some (Join ErrWriteFailed e), server :: rest)
      | None =>
          if negb (String.eqb resp "OK") then ret (Some ErrStoreFailed, server :: rest)
          else
            let* (err, rest) := fanout_loop fuel command rest in
            ret (err, server :: rest)
      end
  end.

Definition Client_FlushAll (fuel : nat) (c : Client) (sec : Z)
  : M (option error * Client) :=
  let command := "flush_all " ++ fmt_d sec ++ CRLF in
  let* (err, ss) := fanout_loop fuel command (servers c) in
  ret (err, mkClient ss).

Definition Client_Verbosity (fuel : nat) (c : Client) (level : Z)
  : M (option error * Client) :=
  let command := "verbosity " ++ fmt_d level ++ CRLF in
  let* (err, ss) := fanout_loop fuel command (servers c) in
  ret (err, mkClient ss).

(** [Increment] and [Decrement] differ in the command word only. *)
Definition arith (fuel : nat) (word : string) (c : Client) (key : string) (delta : Z)
  : M (Z * option error * Client) :=
  let* p := lift (pickServer c key) in
  match p with
  | inr e => ret (0, Some e, c)
  | inl (i, server) =>
      let command := word ++ " " ++ key ++ " " ++ fmt_d delta ++ CRLF in
      let* (resp, err, server) := Server_WriteCommand fuel server command in
      let c := store c i server in
      match err with
      | Some e => ret (0, Some (Join ErrWriteFailed e), c)
      | None =>
          if String.eqb resp "NOT_FOUND" then ret (0, Some ErrNotFound, c)
          else
            let newValue := match Sscanf_d_uint64 resp with
                            | Some v => v
                            | None => 0
                            end in
            ret (newValue, None, c)
      end
  end.

Definition Client_Increment (fuel : nat) (c : Client) (key : string) (delta : Z)
  : M (Z * option error * Client) :=
  arith fuel "incr" c key delta.

Definition Client_Decrement (fuel : nat) (c : Client) (key : string) (delta : Z)
  : M (Z * option error * Client) :=
  arith fuel "decr" c key delta.

(** One turn of the inner loop of [StatsAll]. *)
Definition merge_entry (mergedStats : gmap string string) (kv : string * string)
  : gmap string string :=
  match mergedStats !! kv.1 with
  | Some _ => mergedStats
  | None => <[kv.1 := kv.2]> mergedStats
  end.

(** [for key, value := range stats]: Go visits the entries of a map in an
    order it does not specify; [entries] is the order of one run. *)
Definition merge_range (mergedStats : gmap string string) (entries : list (string * string))
  : gmap string string :=
  fold_left merge_entry entries mergedStats.

Definition entries_of (stats : option (gmap string string)) : list (string * string) :=
  match stats with
  | None => []
  | Some m => map_to_list m
  end.

Fixpoint StatsAll_loop (fuel : nat) (ss : list Server) (mergedStats : gmap string string)
  : M (gmap string string * option error * list Server) :=
  match ss with
  | [] => ret (mergedStats, None, [])
  | server :: rest =>
      let* (stats, err, server) := Server_GetStats fuel server in
      match err with
      | Some e => ret (mergedStats, Some (Join ErrWriteFailed e), server :: rest)
      | None =>
          let mergedStats := merge_range mergedStats (entries_of stats) in
          let* (m, err, rest) := StatsAll_loop fuel rest mergedStats in
          ret (m, err, server :: rest)
      end
  end.

Definition Client_StatsAll (fuel : nat) (c : Client)
  : M (gmap string string * option error * Client) :=
  let* (m, err, ss) := StatsAll_loop fuel (servers c) ∅ in
  ret (m, err, mkClient ss).

(** [pickServerFromAddr]: the loop counts the servers it passes in
    [index]; when no server has the address, [index] ends as the length of
    the slice. *)
Fixpoint pickServerFromAddr_loop (ss : list Server) (addr : string) (index : nat)
  : option Server * nat * option error :=
  match ss with
  | [] => (None, index, Some ErrNotFound)
  | server :: rest =>
      if String.eqb (Address server) addr then (Some server, index, None)
      else pickServerFromAddr_loop rest addr (S index)
  end.

Definition pickServerFromAddr (c : Client) (addr : string)
  : option Server * nat * option error :=
  pickServerFromAddr_loop (servers c) addr O.

Definition Client_Add (fuel : nat) (c : Client) (key value : string) (expiration : Z)
  : M (option error * Client) :=
  let* p := lift (pickServer c key) in
  match p with
  | inr e => ret (Some e, c)
  | inl (i, server) =>
      let command :=
        "add " ++ key ++ " 0 " ++ fmt_d expiration ++ " " ++ fmt_d (len value)
          ++ CRLF ++ value ++ CRLF in
      let* (resp, err, server) := Server_WriteCommand fuel server command in
      let c := store c i server in
      match err with
      | Some e => ret (Some (Join ErrWriteFailed e), c)
      | None =>
          if negb (String.eqb resp "STORED") then ret (Some ErrStoreFailed, c)
          else ret (None, c)
      end
  end.

Definition Client_Replace (fuel : nat) (c : Client) (key value : string) (expiration : Z)
  : M (option error * Client) :=
  let* p := lift (pickServer c key) in
  match p with
  | inr e => ret (Some e, c)
  | inl (i, server) =>
      let command :=
        "replace " ++ key ++ " 0 " ++ fmt_d expiration ++ " " ++ fmt_d (len value)
          ++ CRLF ++ value ++ CRLF in
      let* (resp, err, server) := Server_WriteCommand fuel server command in
      let c := store c i server in
      match err with
      | Some e => ret (Some (Join ErrWriteFailed e), c)
      | None =>
          if negb (String.eqb resp "STORED") then ret (Some ErrStoreFailed, c)
          else ret (None, c)
      end
  end.

Definition Client_Append (fuel : nat) (c : Client) (key value : string)
  : M (option error * Client) :=
  let* p := lift (pickServer c key) in
  match p with
  | inr e => ret (Some e, c)
  | inl (i, server) =>
      let command :=
        "append " ++ key ++ " 0 0 " ++ fmt_d (len value) ++ CRLF ++ value ++ CRLF in
      let* (resp, err, server) := Server_WriteCommand fuel server command in
      let c := store c i server in
      match err with
      | Some e => ret (Some (Join ErrWriteFailed e), c)
      | None =>
          if negb (String.eqb resp "STORED") then ret (Some ErrStoreFailed, c)
          else ret (None, c)
      end
  end.

Definition Client_Prepend (fuel : nat) (c : Client) (key value : string)
  : M (option error * Client) :=
  let* p := lift (pickServer c key) in
  match p with
  | inr e => ret (Some e, c)
  | inl (i, server) =>
      let command :=
        "prepend " ++ key ++ " 0 0 " ++ fmt_d (len value) ++ CRLF ++ value ++ CRLF in
      let* (resp, err, server) := Server_WriteCommand fuel server command in
      let c := store c i server in
      match err with
      | Some e => ret (Some (Join ErrWriteFailed e), c)
      | None =>
          if negb (String.eqb resp "STORED") then ret (Some ErrStoreFailed, c)
          else ret (None, c)
      end
  end.

Definition Client_CAS (fuel : nat) (c : Client) (key value : string) (expiration : Z) (cas : Z)
  : M (option error * Client) :=
  let* p := lift (pickServer c key) in
  match p with
  | inr e => ret (Some e, c)
  | inl (i, server) =>
      let command :=
        "cas " ++ key ++ " 0 " ++ fmt_d expiration ++ " " ++ fmt_d (len value) ++ " "
          ++ fmt_d cas ++ CRLF ++ value ++ CRLF in
      let* (resp, err, server) := Server_WriteCommand fuel server command in
      let c := store c i server in
      match err with
      | Some e => ret (Some (Join ErrWriteFailed e), c)
      | None =>
          if negb (String.eqb resp "STORED") then ret (Some ErrStoreFailed, c)
          else ret (None, c)
      end
  end.

Definition Client_Delete (fuel : nat) (c : Client) (key : string)
  : M (option error * Client) :=
  let* p := lift (pickServer c key) in
  match p with
  | inr e => ret (Some e, c)
  | inl (i, server) =>
      let command :=
        "delete " ++ key ++ CRLF in
      let* (resp, err, server) := Server_WriteCommand fuel server command in
      let c := store c i server in
      match err with
      | Some e => ret (Some (Join ErrWriteFailed e), c)
      | None =>
          if negb (String.eqb resp "DELETED") then ret (Some ErrStoreFailed, c)
          else ret (None, c)
      end
  end.

Definition Client_Touch (fuel : nat) (c : Client) (key : string) (expiration : Z)
  : M (option error * Client) :=
  let* p := lift (pickServer c key) in
  match p with
  | inr e => ret (Some e, c)
  | inl (i, server) =>
      let command :=
        "touch " ++ key ++ " " ++ fmt_d expiration ++ CRLF in
      let* (resp, err, server) := Server_WriteCommand fuel server command in
      let c := store c i server in
      match err with
      | Some e => ret (Some (Join ErrWriteFailed e), c)
      | None =>
          if negb (String.eqb resp "OK") then ret (Some ErrStoreFailed, c)
          else ret (None, c)
      end
  end.

(** [Stats]: the result of [GetStats] is returned as it is. *)
Definition Client_Stats (fuel : nat) (c : Client) (addr : string)
  : M (option (gmap string string) * option error * Client) :=
  match pickServerFromAddr c addr with
  | (Some server, i, None) =>
      let* (stats, err, server) := Server_GetStats fuel server in
      ret (stats, err, store c i server)
  | (_, _, Some e) => ret (None, Some e, c)
  | (None, _, None) => panic nil_deref
  end.

Definition Client_Version (fuel : nat) (c : Client) (addr : string)
  : M (string * option error * Client) :=
  match pickServerFromAddr c addr with
  | (Some server, i, None) =>
      let command := "version" ++ CRLF in
      let* (resp, err, server) := Server_WriteCommand fuel server command in
      let c := store c i server in
      match err with
      | Some e => ret (EmptyString, Some (Join ErrWriteFailed e), c)
      | None => ret (TrimSpace resp, None, c)
      end
  | (_, _, Some e) => ret (EmptyString, Some e, c)
  | (None, _, None) => panic nil_deref
  end.

(** The loop of [Versions]; a failure returns the nil map. *)
Fixpoint Versions_loop (fuel : nat) (ss : list Server) (versions : gmap string string)
  : M (option (gmap string string) * option error * list Server) :=
  match ss with
  | [] => ret (Some versions, None, [])
  | server :: rest =>
      let command := "version" ++ CRLF in
      let* (resp, err, server) := Server_WriteCommand fuel server command in
      match err with
      | Some e => ret (None, Some (Join ErrWriteFailed e), server :: rest)
      | None =>
          let version := TrimSpace resp in
          let* (m, err, rest) :=
            Versions_loop fuel rest (<[Address server := version]> versions) in
          ret (m, err, server :: rest)
      end
  end.

Definition Client_Versions (fuel : nat) (c : Client)
  : M (option (gmap string string) * option error * Client) :=
  let* (m, err, ss) := Versions_loop fuel (servers c) ∅ in
  ret (m, err, mkClient ss).

(** [Quit]: [append(c.servers[:index], c.servers[index+1:]...)] is the
    slice without its element at [index]. *)
Definition Client_Quit (c : Client) (addr : string) : M (option error * Client) :=
  match pickServerFromAddr c addr with
  | (_, _, Some e) => ret (Some e, c)
  | (_, index, None) =>
      match servers c !! index with
      | None => panic "index out of range"
      | Some server =>
          let* _ := Server_Close server in
          ret (None, mkClient (delete index (servers c)))
      end
  end.

Fixpoint QuitAll_loop (ss : list Server) : M unit :=
  match ss with
  | [] => ret tt
  | server :: rest => let* _ := Server_Close server in QuitAll_loop rest
  end.

Definition Client_QuitAll (c : Client) : M (option error * Client) :=
  let* _ := QuitAll_loop (servers c) in
  ret (None, mkClient []).

Definition Client_Extra (fuel : nat) (c : Client) (addr cmd : string)
  : M (string * option error * Client) :=
  match pickServerFromAddr c addr with
  | (Some s, i, None) =>
      let* (res, err, s) := Server_Extra fuel s cmd in
      let c := store c i s in
      match err with
      | Some e => ret (res, Some (Join ErrWriteFailed e), c)
      | None => ret (res, None, c)
      end
  | (_, _, Some e) => ret (EmptyString, Some e, c)
  | (None, _, None) => panic nil_deref
  end.

(** ** Environments to run the client in *)

Definition ok_n (n : Z) : outcome := mkOutcome n EmptyString None.
Definition ok_data (d : string) : outcome := mkOutcome 0 d None.
Definition failure (msg : string) : outcome := mkOutcome 0 EmptyString (Some msg).

(** A scripted environment: the i-th socket call gets the i-th outcome, and
    every call after the script has run out fails. *)
Definition scripted (script : list outcome) : list event -> outcome :=
  fun h => nth (List.length h - 1) script (failure "script exhausted").

Definition world_of (script : list outcome) : World := mkWorld (scripted script) [].

(** A memcached process, as far as [set] and [get] go.  Items are kept per
    address; no time passes, so an item stays until it is overwritten.
    Each stream has the bytes received and not yet parsed, and the bytes of
    replies not yet read by the client.  [limits] is how the transport cuts
    the replies: the k-th read that finds bytes gets at most the k-th limit
    of them, and as many as it asks for once the list is used up. *)
Record Peer : Type := mkPeer {
  peer_addr : string;
  inbuf : string;
  outbuf : string
}.

Record Memcached : Type := mkMemcached {
  items : gmap (string * string) (string * string);
  peers : gmap nat Peer;
  limits : list nat;
  calls : nat
}.

(** The first line of a byte sequence, without its line end, and what
    follows it. *)
Definition cut_line (s : string) : option (string * string) :=
  match cut s LF with
  | None => None
  | Some (line, rest) =>
      let n := String.length line in
      if String.eqb (str_drop (n - 1) line) (String CR EmptyString)
      then Some (str_take (n - 1) line, rest)
      else Some (line, rest)
  end.

Fixpoint serve (fuel : nat) (a : string) (its : gmap (string * string) (string * string))
    (input output : string)
  : gmap (string * string) (string * string) * string * string :=
  match fuel with
  | O => (its, input, output)
  | S fuel' =>
      match cut_line input with
      | None => (its, input, output)
      | Some (line, rest) =>
          match Split line " " with
          | ["get"; key] =>
              let reply :=
                match its !! (a, key) with
                | Some (flags, data) =>
                    "VALUE " ++ key ++ " " ++ flags ++ " " ++ fmt_d (len data)
                      ++ CRLF ++ data ++ CRLF ++ "END" ++ CRLF
                | None => "END" ++ CRLF
                end in
              serve fuel' a its rest (output ++ reply)
          | ["set"; key; flags; exptime; bytes] =>
              match ParseUint flags, Atoi exptime, ParseUint bytes with
              | (_, None), (_, None), (n, None) =>
                  let n := Z.to_nat n in
                  if (String.length rest <? n + 2)%nat then (its, input, output)
                  else if String.eqb (str_take 2 (str_drop n rest)) CRLF
                  then serve fuel' a (<[(a, key) := (flags, str_take n rest)]> its)
                         (str_drop (n + 2) rest) (output ++ "STORED" ++ CRLF)
                  else serve fuel' a its (str_drop (n + 2) rest)
                         (output ++ "CLIENT_ERROR bad data chunk" ++ CRLF)
              | _, _, _ =>
                  serve fuel' a its rest
                    (output ++ "CLIENT_ERROR bad command line format" ++ CRLF)
              end
          | _ => serve fuel' a its rest (output ++ "ERROR" ++ CRLF)
          end
      end
  end.

Definition memcached_step (st : Memcached * outcome) (ev : event) : Memcached * outcome :=
  let m := st.1 in
  let next := S (calls m) in
  match ev with
  | EvDial a =>
      (mkMemcached (items m) (<[calls m := mkPeer a "" ""]> (peers m)) (limits m) next,
       ok_n 0)
  | EvClose h =>
      (mkMemcached (items m) (delete h (peers m)) (limits m) next, ok_n 0)
  | EvWrite h b =>
      match peers m !! h with
      | None => (mkMemcached (items m) (peers m) (limits m) next,
                 failure "use of closed network connection")
      | Some p =>
          let input := inbuf p ++ b in
          let '(its, input, output) :=
            serve (S (String.length input)) (peer_addr p) (items m) input (outbuf p) in
          (mkMemcached its (<[h := mkPeer (peer_addr p) input output]> (peers m))
             (limits m) next,
           ok_n (len b))
      end
  | EvRead h n =>
      match peers m !! h with
      | None => (mkMemcached (items m) (peers m) (limits m) next,
                 failure "use of closed network connection")
      | Some p =>
          match outbuf p with
          | EmptyString => (mkMemcached (items m) (peers m) (limits m) next,
                            failure "i/o timeout")
          | _ =>
              let k := match limits m with
                       | [] => n
                       | l :: _ => Nat.min l n
                       end in
              (mkMemcached (items m)
                 (<[h := mkPeer (peer_addr p) (inbuf p) (str_drop k (outbuf p))]> (peers m))
                 (List.tl (limits m)) next,
               ok_data (str_take k (outbuf p)))
          end
      end
  end.

Definition memcached (limits : list nat) : list event -> outcome :=
  fun h => (fold_left memcached_step h (mkMemcached ∅ ∅ limits O, ok_n 0)).2.

(** * Vocabulary of the properties *)

(** The handle a redial gets after the first attempt and the close. *)
Definition redialed (w : World) : handle := (List.length (log w) + 2)%nat.

(** The environment's answer to the last of the calls [evs], made in this
    order from the world [w], and the world after them. *)
Definition answer (w : World) (evs : list event) : outcome :=
  oracle w (log w ++ evs)%list.

Definition after (w : World) (evs : list event) : World :=
  mkWorld (oracle w) (log w ++ evs)%list.

(** A stream whose write fails, at an address that refuses the redial. *)
Definition broken : World :=
  world_of [failure "broken pipe"; ok_n 0; failure "connection refused"].

(** The i-th address is dialable: the environment accepts its dial, made
    after the dials of the addresses before it. *)
Definition dialable (w : World) (addresses : list string) (i : nat) : Prop :=
  out_err (answer w (List.map EvDial (take (S i) addresses))) = None.

(** [acknowledged fuel command ss w ss' w']: the exchanges of [command]
    with the servers [ss], made in list order from the world [w], each came
    back with the reply OK; they leave the servers as [ss'] and the world
    as [w']. *)
Inductive acknowledged (fuel : nat) (command : string)
  : list Server -> World -> list Server -> World -> Prop :=
| ack_nil (w : World) : acknowledged fuel command [] w [] w
| ack_cons (s s' : Server) (ss ss' : list Server) (w w1 w2 : World) :
    Server_WriteCommand fuel s command w = (Val ("OK", None, s'), w1) ->
    acknowledged fuel command ss w1 ss' w2 ->
    acknowledged fuel command (s :: ss) w (s' :: ss') w2.

(** What the loop returns for a server whose exchange ended with the error
    [err] or, without error, with a reply other than OK. *)
Definition refusal (err : option error) : error :=
  match err with
  | Some e => Join ErrWriteFailed e
  | None => ErrStoreFailed
  end.

(** The value [fmt.Sscanf] leaves in [newValue], which starts as zero. *)
Definition scanned (resp : string) : Z :=
  match Sscanf_d_uint64 resp with
  | Some v => v
  | None => 0
  end.

(** A reply that starts with neither a digit nor white space. *)
Definition non_numeric (resp : string) : Prop :=
  match resp with
  | EmptyString => True
  | String ch _ =>
      is_digit ch = false /\ space_width (bytes_of (str_take 3 resp)) = O
  end.

(** What [Increment] or [Decrement], run as [op] from the world [w], makes
    of an exchange that ended with the reply [resp] and the error [xerr]
    and left the server as [s'] and the world as [w']. *)
Definition arith_outcome (op : M (Z * option error * Client)) (w : World)
    (c : Client) (i : nat) (s' : Server) (resp : string) (xerr : option error)
    (w' : World) : Prop :=
  exists (v : Z) (err : option error),
    op w = (Val (v, err, store c i s'), w')
    /\ (err = Some ErrNotFound <-> xerr = None /\ resp = "NOT_FOUND")
    /\ (xerr = None -> resp <> "NOT_FOUND" ->
        err = None /\ v = scanned resp /\ (non_numeric resp -> v = 0)).

Definition reported_by (stats : option (gmap string string)) (k : string)
  : option string :=
  match stats with
  | None => None
  | Some m => m !! k
  end.

(** The value of [k] in the result of the first server, in list order, that
    reported [k]. *)
Fixpoint first_reported (k : string) (results : list (option (gmap string string)))
  : option string :=
  match results with
  | [] => None
  | stats :: rest =>
      match reported_by stats k with
      | Some v => Some v
      | None => first_reported k rest
      end
  end.

(** [reported fuel ss w results ss' w']: the [GetStats] calls on the servers
    [ss], made in list order from [w], all succeeded, with [results]. *)
Inductive reported (fuel : nat)
  : list Server -> World -> list (option (gmap string string)) ->
    list Server -> World -> Prop :=
| rep_nil (w : World) : reported fuel [] w [] [] w
| rep_cons (s s' : Server) (ss ss' : list Server) (w w1 w2 : World)
    (stats : option (gmap string string))
    (results : list (option (gmap string string))) :
    Server_GetStats fuel s w = (Val (stats, None, s'), w1) ->
    reported fuel ss w1 results ss' w2 ->
    reported fuel (s :: ss) w (stats :: results) (s' :: ss') w2.

(** The reply of a memcached server to [get k] when it holds the five bytes
    [xEND] and a line feed under [k]. *)
Definition payload : string := "xEND" ++ String LF EmptyString.

Definition reply : string :=
  "VALUE k 0 5" ++ CRLF ++ payload ++ CRLF ++ "END" ++ CRLF.

(** A transport that accepts the command and delivers the reply in two
    segments, the first of 14 bytes: the header line and one byte of data. *)
Definition fragmented : World :=
  world_of [ok_n 7; ok_data (str_take 14 reply); ok_data (str_drop 14 reply)].

Fixpoint repeat_byte (n : nat) (ch : ascii) : string :=
  match n with
  | O => EmptyString
  | S n' => String ch (repeat_byte n' ch)
  end.

(** A value of 5000 bytes. *)
Definition large : string := repeat_byte 5000 "a".

(** One server behind stream 0, and the client that has only it. *)
Definition cache : Server := mkServer "cache:11211" (mkConn "cache:11211" (Some O)).
Definition single : Client := mkClient [cache].

(** Three servers behind the streams 0, 1 and 2. *)
Definition node (i : nat) (a : string) : Server := mkServer a (mkConn a (Some i)).
Definition three : list Server := [node 0 "a:11211"; node 1 "b:11211"; node 2 "c:11211"].

(** Two servers that both report [pid]: the merged map has the first one's. *)
Definition stats_a : gmap string string := <["uptime" := "5"]> (<["pid" := "1"]> ∅).
Definition stats_b : gmap string string := <["version" := "1.6"]> (<["pid" := "2"]> ∅).

(** The streams of the servers that have one, in list order. *)
Definition streams (ss : list Server) : list handle :=
  omap (fun s => conn (server_conn s)) ss.

(** Every server of the list has a stream. *)
Definition connected (ss : list Server) : Prop :=
  Forall (fun s => conn (server_conn s) <> None) ss.

(** No server of the list has the address. *)
Definition unknown (addr : string) (ss : list Server) : Prop :=
  Forall (fun s => Address s <> addr) ss.

(** The read a reader makes when it holds [acc]: into the free part of its
    buffer.  [chunk] is what the environment puts there, [read_ok] that it
    reports no error, [after_read] the world after the call. *)
Definition read_event (h : handle) (acc : string) : event :=
  EvRead h (defaultBufSize - String.length acc).

Definition chunk (h : handle) (w : World) (acc : string) : string :=
  delivered (defaultBufSize - String.length acc) (answer w [read_event h acc]).

Definition read_ok (h : handle) (w : World) (acc : string) : Prop :=
  out_err (answer w [read_event h acc]) = None.

Definition after_read (h : handle) (w : World) (acc : string) : World :=
  after w [read_event h acc].

(** [fed h n w acc line rest w']: a reader on stream [h] that holds [acc]
    gets, from the world [w] on, a line in [n] reads.  Each read succeeds
    and brings bytes; the first [n - 1] bring no line feed and leave room in
    the buffer; the last one brings one.  [line] is everything up to and
    with that line feed, [rest] what the last read brought after it. *)
Inductive fed (h : handle)
  : nat -> World -> string -> string -> string -> World -> Prop :=
| fed_last (w : World) (acc : string) (i : nat) :
    (String.length acc < defaultBufSize)%nat ->
    read_ok h w acc ->
    IndexByte (chunk h w acc) LF = Some i ->
    fed h 1 w acc (acc ++ str_take (i + 1) (chunk h w acc))
      (str_drop (i + 1) (chunk h w acc)) (after_read h w acc)
| fed_more (n : nat) (w w' : World) (acc line rest : string) :
    (String.length acc < defaultBufSize)%nat ->
    read_ok h w acc ->
    chunk h w acc <> EmptyString ->
    IndexByte (chunk h w acc) LF = None ->
    fed h n (after_read h w acc) (acc ++ chunk h w acc) line rest w' ->
    fed h (S n) w acc line rest w'.

(** [exchanged h n w cmd line rest w']: from the world [w], the write of
    [cmd] on stream [h] is accepted and the reply line then arrives in [n]
    reads. *)
Definition exchanged (h : handle) (n : nat) (w : World) (cmd line rest : string)
    (w' : World) : Prop :=
  out_err (answer w [EvWrite h cmd]) = None
  /\ fed h n (after w [EvWrite h cmd]) EmptyString line rest w'.

(** What a storage command makes of a reply line, given its sentinel. *)
Definition verdict (line expect : string) : option error :=
  if String.eqb (TrimSpace line) expect then None else Some ErrStoreFailed.

(** An operation keeps the servers: whenever it returns, the client has
    the same addresses, in the same order, as before. *)
Definition keeps_servers {A : Type} (op : Client -> M (A * Client)) : Prop :=
  forall (c c' : Client) (w w' : World) (r : A),
    op c w = (Val (r, c'), w') ->
    List.map Address (servers c') = List.map Address (servers c).

(** [answered fuel command ss w replies ss' w']: the exchanges of [command]
    with the servers [ss], made in list order from [w], all succeeded, with
    the reply lines [replies]. *)
Inductive answered (fuel : nat) (command : string)
  : list Server -> World -> list string -> list Server -> World -> Prop :=
| ans_nil (w : World) : answered fuel command [] w [] [] w
| ans_cons (s s' : Server) (ss ss' : list Server) (w w1 w2 : World)
    (resp : string) (replies : list string) :
    Server_WriteCommand fuel s command w = (Val (resp, None, s'), w1) ->
    answered fuel command ss w1 replies ss' w2 ->
    answered fuel command (s :: ss) w (resp :: replies) (s' :: ss') w2.

(** The version of the last server, in list order, that has the address. *)
Fixpoint last_version (a : string) (ss : list Server) (replies : list string)
  : option string :=
  match ss, replies with
  | s :: ss', resp :: replies' =>
      match last_version a ss' replies' with
      | Some v => Some v
      | None => if String.eqb (Address s) a then Some (TrimSpace resp) else None
      end
  | _, _ => None
  end.

(** [read_lines fuel b w ls b' w']: from the world [w], the reader [b]
    reads the lines [ls] one after the other, each without error; it is
    then [b'], in the world [w'].  The fuel goes down by one per line, as in
    the loops of [GetStats] and [Extra]. *)
Inductive read_lines
  : nat -> Reader -> World -> list string -> Reader -> World -> Prop :=
| rl_nil (fuel : nat) (b : Reader) (w : World) : read_lines fuel b w [] b w
| rl_cons (fuel : nat) (b b1 b' : Reader) (w w1 w' : World)
    (line : string) (ls : list string) :
    ReadString (S fuel) b LF w = (Val (line, None, b1), w1) ->
    read_lines fuel b1 w1 ls b' w' ->
    read_lines (S fuel) b w (line :: ls) b' w'.

(** A line of statistics: STAT, a key without a space, and the value, which
    is the rest of the line, spaces included. *)
Definition stat_line (line : string) (kv : string * string) : Prop :=
  TrimSpace line = "STAT " ++ fst kv ++ " " ++ snd kv
  /\ IndexByte (fst kv) " " = None.

(** The map of a sequence of statistics, the later of two values of a key
    winning; the nil map when there is none. *)
Definition tally (kvs : list (string * string)) : option (gmap string string) :=
  match kvs with
  | [] => None
  | _ => Some (list_to_map (rev kvs))
  end.

(** The lines, each trimmed and ended by a line feed. *)
Definition transcript (ls : list string) : string :=
  fold_right (fun l acc => TrimSpace l ++ String LF acc) EmptyString ls.

(** A line that is neither END nor a statistic. *)
Definition malformed (line : string) : Prop :=
  TrimSpace line <> "END"
  /\ ((List.length (SplitN (TrimSpace line) " " 3) < 3)%nat
      \/ nth 0 (SplitN (TrimSpace line) " " 3) "" <> "STAT").

(** One turn of the loop of [GetStats] on a line of statistics. *)
Definition add_stat (acc : option (gmap string string)) (kv : string * string)
  : option (gmap string string) :=
  Some (<[fst kv := snd kv]> (match acc with None => ∅ | Some m => m end)).

(** The servers that dials of the addresses give when the first of them
    returns the stream [h]: each dial returns the next handle. *)
Fixpoint dialed (h : handle) (addresses : list string) : list Server :=
  match addresses with
  | [] => []
  | a :: rest => mkServer a (mkConn a (Some h)) :: dialed (S h) rest
  end.

(** * Properties *)

(** ** Byte strings *)

Lemma str_take_length (n : nat) (s : string) :
  String.length (str_take n s) = Nat.min n (String.length s).
Proof.
  revert s; induction n as [|n IH]; intros [|c s]; simpl; auto.
Qed.

Lemma str_drop_length (n : nat) (s : string) :
  String.length (str_drop n s) = (String.length s - n)%nat.
Proof.
  revert s; induction n as [|n IH]; intros [|c s]; simpl; auto.
Qed.

Lemma append_length (s t : string) :
  String.length (s ++ t) = (String.length s + String.length t)%nat.
Proof. induction s as [|c s IH]; simpl; auto. Qed.

Lemma put_length (p : string) (o : outcome) :
  String.length (put p (delivered (String.length p) o)) = String.length p.
Proof.
  unfold put, delivered.
  rewrite append_length, str_drop_length, str_take_length. lia.
Qed.

Lemma zeros_length (n : nat) : String.length (zeros n) = n.
Proof. induction n; simpl; auto. Qed.

Lemma str_take_append (d x : string) : str_take (String.length d) (d ++ x) = d.
Proof. induction d as [|c d IH]; simpl; [reflexivity|by rewrite IH]. Qed.

Lemma str_take_put (p d : string) : str_take (String.length d) (put p d) = d.
Proof. apply str_take_append. Qed.

Lemma IndexByte_nonempty (d : string) (c : ascii) (i : nat) :
  IndexByte d c = Some i -> (0 <? String.length d)%nat = true.
Proof. destruct d; [discriminate|reflexivity]. Qed.

(** The library models on the inputs the protocol brings. *)

Example TrimSpace_line : TrimSpace ("  END" ++ CRLF) = "END".
Proof. reflexivity. Qed.

Example TrimSpace_no_break_space :
  TrimSpace (String (ascii_of_nat 194) (String (ascii_of_nat 160) "OK ")) = "OK".
Proof. reflexivity. Qed.

Example Split_header : Split "VALUE k 0 5" " " = ["VALUE"; "k"; "0"; "5"].
Proof. reflexivity. Qed.

Example Split_empty : Split "" " " = [""].
Proof. reflexivity. Qed.

Example SplitN_stat :
  SplitN "STAT version 1.6 beta" " " 3 = ["STAT"; "version"; "1.6 beta"].
Proof. reflexivity. Qed.

Example Atoi_signed : Atoi "-5" = (-5, None).
Proof. reflexivity. Qed.

Example Atoi_junk : Atoi "5x" = (0, Some (NumError "Atoi" "invalid syntax")).
Proof. reflexivity. Qed.

Example Atoi_range :
  Atoi "9223372036854775808"
    = (9223372036854775807, Some (NumError "Atoi" "value out of range")).
Proof. reflexivity. Qed.

Example fmt_d_negative : fmt_d (-15) = "-15".
Proof. reflexivity. Qed.

Example Sscanf_prefix : Sscanf_d_uint64 "12abc" = Some 12.
Proof. reflexivity. Qed.

Example Sscanf_word : Sscanf_d_uint64 "ERROR" = None.
Proof. reflexivity. Qed.

Example Sscanf_overflow : Sscanf_d_uint64 "18446744073709551616" = None.
Proof. reflexivity. Qed.

(** ** The connection *)

Section Connection.

Variables (a : string) (h : handle) (w : World).

Lemma call_eq (ev : event) :
  call ev w = (Val (answer w [ev]), after w [ev]).
Proof. reflexivity. Qed.

Lemma after_after (evs evs' : list event) :
  after (after w evs) evs' = after w (evs ++ evs').
Proof. unfold after; simpl. by rewrite <- app_assoc. Qed.

Lemma answer_after (evs evs' : list event) :
  answer (after w evs) evs' = answer w (evs ++ evs').
Proof. unfold answer, after; simpl. by rewrite <- app_assoc. Qed.

Lemma Conn_Write_cases (b : string) :
  let first := [EvWrite h b] in
  let redial := [EvWrite h b; EvClose h; EvDial a] in
  let retry := [EvWrite h b; EvClose h; EvDial a; EvWrite (redialed w) b] in
  Conn_Write (mkConn a (Some h)) b w =
    match out_err (answer w first) with
    | None =>
        (Val (out_n (answer w first), None, mkConn a (Some h)), after w first)
    | Some _ =>
        match out_err (answer w redial) with
        | Some msg =>
            (Val (out_n (answer w first), Some (NetError msg), mkConn a None),
             after w redial)
        | None =>
            (Val (out_n (answer w retry), err_of (answer w retry),
                  mkConn a (Some (redialed w))),
             after w retry)
        end
    end.
Proof.
  intros first redial retry; subst first redial retry.
  unfold Conn_Write, stream_Write, reconnect, connect, Dial, stream_Close,
    bind, call, ret, err_of, answer, after, redialed; simpl.
  destruct (out_err (oracle w (log w ++ [EvWrite h b]))) as [m1|]; [|reflexivity].
  simpl. rewrite <- !app_assoc; simpl.
  destruct (out_err (oracle w (log w ++ [EvWrite h b; EvClose h; EvDial a])))
    as [m2|]; [reflexivity|].
  simpl. rewrite <- !app_assoc; simpl.
  rewrite !length_app; simpl.
  replace (List.length (log w) + 1 + 1)%nat with (List.length (log w) + 2)%nat by lia.
  reflexivity.
Qed.

Lemma Conn_Read_cases (p : string) :
  let n := String.length p in
  let first := [EvRead h n] in
  let redial := [EvRead h n; EvClose h; EvDial a] in
  let retry := [EvRead h n; EvClose h; EvDial a; EvRead (redialed w) n] in
  let d1 := delivered n (answer w first) in
  let d2 := delivered n (answer w retry) in
  Conn_Read (mkConn a (Some h)) p w =
    match out_err (answer w first) with
    | None =>
        (Val (String.length d1, put p d1, None, mkConn a (Some h)), after w first)
    | Some _ =>
        match out_err (answer w redial) with
        | Some msg =>
            (Val (String.length d1, put p d1, Some (NetError msg), mkConn a None),
             after w redial)
        | None =>
            (Val (String.length d2, put (put p d1) d2, err_of (answer w retry),
                  mkConn a (Some (redialed w))),
             after w retry)
        end
    end.
Proof.
  intros n first redial retry d1 d2; subst n first redial retry d1 d2.
  unfold Conn_Read, stream_Read, reconnect, connect, Dial, stream_Close,
    bind, call, ret, err_of, answer, after, redialed; simpl.
  destruct (out_err (oracle w (log w ++ [EvRead h (String.length p)])))
    as [m1|]; [|reflexivity].
  simpl. rewrite <- !app_assoc; simpl.
  destruct (out_err (oracle w (log w ++
              [EvRead h (String.length p); EvClose h; EvDial a])))
    as [m2|]; [reflexivity|].
  simpl. rewrite <- !app_assoc; simpl.
  rewrite !length_app, !put_length; simpl.
  replace (List.length (log w) + 1 + 1)%nat with (List.length (log w) + 2)%nat by lia.
  reflexivity.
Qed.

(** A connection without a socket: the method call on the nil interface
    value panics before anything reaches the network. *)
Lemma Conn_Write_nil (b : string) :
  Conn_Write (mkConn a None) b w = (Panic nil_deref, w).
Proof. reflexivity. Qed.

Lemma Conn_Read_nil (p : string) :
  Conn_Read (mkConn a None) p w = (Panic nil_deref, w).
Proof. reflexivity. Qed.

End Connection.

(** C1. [Conn.Write] and [Conn.Read] on a connection that holds a stream
    [h]: the operation is tried once on [h]; when that attempt has no error
    its result is returned and nothing else reaches the network; when it has
    one, [h] is closed and the address redialed, once; a failed redial
    returns the dial's error as it is, with no further attempt; a successful
    one is followed by one attempt on the new stream, whose count and error
    are returned as they are.  The log of socket calls grows by exactly the
    calls named. *)
Theorem Conn_retries_once (a : string) (h : handle) (w : World) :
  (forall b : string,
     let first := [EvWrite h b] in
     let redial := [EvWrite h b; EvClose h; EvDial a] in
     let retry := [EvWrite h b; EvClose h; EvDial a; EvWrite (redialed w) b] in
     Conn_Write (mkConn a (Some h)) b w =
       match out_err (answer w first) with
       | None =>
           (Val (out_n (answer w first), None, mkConn a (Some h)), after w first)
       | Some _ =>
           match out_err (answer w redial) with
           | Some msg =>
               (Val (out_n (answer w first), Some (NetError msg), mkConn a None),
                after w redial)
           | None =>
               (Val (out_n (answer w retry), err_of (answer w retry),
                     mkConn a (Some (redialed w))),
                after w retry)
           end
       end)
  /\
  (forall p : string,
     let n := String.length p in
     let first := [EvRead h n] in
     let redial := [EvRead h n; EvClose h; EvDial a] in
     let retry := [EvRead h n; EvClose h; EvDial a; EvRead (redialed w) n] in
     let d1 := delivered n (answer w first) in
     let d2 := delivered n (answer w retry) in
     Conn_Read (mkConn a (Some h)) p w =
       match out_err (answer w first) with
       | None =>
           (Val (String.length d1, put p d1, None, mkConn a (Some h)),
            after w first)
       | Some _ =>
           match out_err (answer w redial) with
           | Some msg =>
               (Val (String.length d1, put p d1, Some (NetError msg), mkConn a None),
                after w redial)
           | None =>
               (Val (String.length d2, put (put p d1) d2, err_of (answer w retry),
                     mkConn a (Some (redialed w))),
                after w retry)
           end
       end).
Proof.
  split; intros; [apply Conn_Write_cases | apply Conn_Read_cases].
Qed.

(** C5. After a call whose attempt failed and whose redial failed, the
    connection has no socket, and the next [Write] or [Read] on it panics
    with a nil dereference: it does not return an error. *)
Theorem Conn_without_socket_panics :
  let c := mkConn "cache:11211" (Some O) in
  exists (c' : Conn) (w' : World),
    Conn_Write c "get k" broken
      = (Val (0, Some (NetError "connection refused"), c'), w')
    /\ conn c' = None
    /\ Conn_Write c' "get k" w' = (Panic nil_deref, w')
    /\ Conn_Read c' (zeros 16) w' = (Panic nil_deref, w').
Proof.
  eexists _, _. split; [reflexivity|]. repeat split.
Qed.

(** ** The buffered reader *)

Lemma buffer_has_room : (defaultBufSize <=? 0)%nat = false.
Proof. reflexivity. Qed.

Lemma fill_loop_eq (i : nat) (b : Reader) :
  fill_loop (S i) b =
    (let* (n, p, err, c) :=
       Conn_Read (rd b) (zeros (defaultBufSize - String.length (buffered b))) in
     let b := mkReader c (buffered b ++ str_take n p) (rerr b) in
     match err with
     | Some e => ret (mkReader (rd b) (buffered b) (Some e))
     | None => if (0 <? n)%nat then ret b else fill_loop i b
     end)%go.
Proof. reflexivity. Qed.

(** A line that arrives whole with the first read: a fresh reader makes that
    one read, of the size of its buffer, and [ReadString] returns the bytes
    up to and with the first line feed.  Two units of fuel are enough. *)
Lemma ReadString_first_read (fuel : nat) (a : string) (h : handle) (w : World) (i : nat) :
  let c := mkConn a (Some h) in
  let o := answer w [EvRead h defaultBufSize] in
  let d := delivered defaultBufSize o in
  out_err o = None ->
  IndexByte d LF = Some i ->
  ReadString (S (S fuel)) (NewReader c) LF w
    = (Val (str_take (i + 1) d, None, mkReader c (str_drop (i + 1) d) None),
       after w [EvRead h defaultBufSize]).
Proof.
  intros c o d Ho Hi.
  unfold ReadString, bind at 1.
  cbn [collectFragments]. unfold bind at 1, ReadSlice.
  cbn [ReadSlice_loop NewReader buffered rerr rd str_drop IndexByte String.length].
  rewrite buffer_has_room.
  unfold bind at 1, fill. cbn [buffered NewReader String.length].
  rewrite buffer_has_room.
  change maxConsecutiveEmptyReads with (S 99). rewrite fill_loop_eq.
  unfold bind at 1. cbn [rd buffered rerr String.length NewReader].
  rewrite Nat.sub_0_r. unfold c.
  rewrite (Conn_Read_cases a h w (zeros defaultBufSize)).
  rewrite zeros_length. fold o. rewrite Ho. fold d.
  cbv beta iota. rewrite str_take_put.
  rewrite (IndexByte_nonempty _ _ _ Hi). unfold ret at 1.
  cbn [buffered rerr rd str_drop]. change (String.append "" d) with d. rewrite Hi.
  rewrite Nat.add_0_r.
  reflexivity.
Qed.

(** The same for a whole exchange: the command is accepted and the reply
    line arrives with the first read. *)
Lemma WriteCommand_first_read (fuel : nat) (address a cmd : string) (h : handle)
    (w : World) (i : nat) :
  let s := mkServer address (mkConn a (Some h)) in
  let sent := [EvWrite h cmd] in
  let read := [EvWrite h cmd; EvRead h defaultBufSize] in
  let d := delivered defaultBufSize (answer w read) in
  out_err (answer w sent) = None ->
  out_err (answer w read) = None ->
  IndexByte d LF = Some i ->
  Server_WriteCommand (S (S fuel)) s cmd w
    = (Val (TrimSpace (str_take (i + 1) d), None, s), after w read).
Proof.
  intros s sent read d Hsent Hread Hi.
  unfold Server_WriteCommand, bind at 1. cbn [server_conn s Address].
  rewrite (Conn_Write_cases a h w cmd). fold sent. rewrite Hsent. cbv beta iota.
  unfold bind at 1.
  assert (Hd : delivered defaultBufSize
                 (answer (after w sent) [EvRead h defaultBufSize]) = d)
    by (unfold d; rewrite answer_after; reflexivity).
  rewrite (ReadString_first_read fuel a h (after w sent) i);
    [| rewrite answer_after; exact Hread | rewrite Hd; exact Hi].
  cbv beta iota. rewrite Hd, after_after. reflexivity.
Qed.

(** ** Routing *)

Lemma lxor_range (n a b : Z) :
  0 < n -> 0 <= a < 2 ^ n -> 0 <= b < 2 ^ n -> 0 <= Z.lxor a b < 2 ^ n.
Proof.
  intros Hn [Ha0 Ha] [Hb0 Hb].
  assert (H0 : 0 <= Z.lxor a b) by (apply Z.lxor_nonneg; tauto).
  split; [exact H0|].
  destruct (Z.eq_dec (Z.lxor a b) 0) as [->|Hne]; [apply Z.pow_pos_nonneg; lia|].
  apply Z.log2_lt_pow2; [lia|].
  assert (La : Z.log2 a < n).
  { destruct (Z.eq_dec a 0) as [->|]; [simpl; lia|apply Z.log2_lt_pow2; lia]. }
  assert (Lb : Z.log2 b < n).
  { destruct (Z.eq_dec b 0) as [->|]; [simpl; lia|apply Z.log2_lt_pow2; lia]. }
  pose proof (Z.log2_lxor a b Ha0 Hb0). lia.
Qed.

Lemma byte_of_range (c : ascii) : 0 <= byte_of c < 2 ^ 32.
Proof.
  unfold byte_of. pose proof (N_ascii_bounded c). lia.
Qed.

Lemma crc32_bit_range (x : Z) : 0 <= x < 2 ^ 32 -> 0 <= crc32_bit x < 2 ^ 32.
Proof.
  intros Hx. unfold crc32_bit.
  assert (Hs : 0 <= Z.shiftr x 1 < 2 ^ 32).
  { rewrite Z.shiftr_div_pow2 by lia. change (2 ^ 1) with 2.
    split; [apply Z.div_pos; lia|].
    apply Z.div_lt_upper_bound; lia. }
  destruct (Z.testbit x 0); [|exact Hs].
  apply lxor_range; [lia|exact Hs|lia].
Qed.

Lemma crc32_byte_range (x : Z) (c : ascii) :
  0 <= x < 2 ^ 32 -> 0 <= crc32_byte x (byte_of c) < 2 ^ 32.
Proof.
  intros Hx. unfold crc32_byte.
  assert (H : 0 <= Z.lxor x (byte_of c) < 2 ^ 32)
    by (apply lxor_range; [lia|exact Hx|apply byte_of_range]).
  simpl. do 8 apply crc32_bit_range. exact H.
Qed.

Lemma ChecksumIEEE_range (data : string) : 0 <= ChecksumIEEE data < 2 ^ 32.
Proof.
  unfold ChecksumIEEE, bytes_of.
  apply lxor_range; [lia| |lia].
  generalize 4294967295 (eq_refl : (0 <=? 4294967295) && (4294967295 <? 2 ^ 32) = true).
  induction (list_ascii_of_string data) as [|c l IH]; intros x Hx; simpl.
  - lia.
  - apply IH. pose proof (crc32_byte_range x c). lia.
Qed.

Example ChecksumIEEE_check : ChecksumIEEE "123456789" = 0xCBF43926.
Proof. reflexivity. Qed.

(** On a value of type [uint32], the conversion to [int] changes nothing and
    Go's [%] is the mathematical remainder. *)
Lemma index_of_hash (hash n : Z) :
  0 <= hash < 2 ^ 32 -> 0 < n ->
  Z.rem (wrap_int64 hash) n = hash mod n.
Proof.
  intros Hh Hn. unfold wrap_int64.
  rewrite Z.mod_small by lia.
  replace (hash + 2 ^ 63 - 2 ^ 63) with hash by lia.
  apply Z.rem_mod_nonneg; lia.
Qed.

(** C2. With no server, [pickServer] fails with [ErrNoServers]; with [N > 0]
    servers it returns, without error, the server at index
    [ChecksumIEEE key mod N] of the slice.  The index is a function of the
    key's bytes and [N] alone. *)
Theorem pickServer_routes (c : Client) (key : string) :
  match servers c with
  | [] => pickServer c key = Val (inr ErrNoServers)
  | _ :: _ =>
      let i := Z.to_nat (ChecksumIEEE key mod Z.of_nat (List.length (servers c))) in
      exists s : Server,
        servers c !! i = Some s /\ pickServer c key = Val (inl (i, s))
  end.
Proof.
  unfold pickServer.
  destruct (servers c) as [|s0 ss] eqn:E; [reflexivity|].
  set (n := Z.of_nat (List.length (s0 :: ss))).
  assert (Hn : 0 < n) by (unfold n; simpl; lia).
  cbn [List.length Nat.eqb].
  fold n. rewrite index_of_hash by (apply ChecksumIEEE_range || exact Hn).
  pose proof (ChecksumIEEE_range key) as Hr.
  pose proof (Z.mod_pos_bound (ChecksumIEEE key) n Hn) as Hm.
  set (i := Z.to_nat (ChecksumIEEE key mod n)).
  destruct (lookup_lt_is_Some_2 (s0 :: ss) i) as [s Hs].
  { unfold i, n in *. lia. }
  exists s. split; [exact Hs|].
  unfold index_servers. rewrite E.
  destruct (Z.ltb_spec (ChecksumIEEE key mod n) 0) as [Hlt|_]; [lia|].
  fold i. rewrite Hs. reflexivity.
Qed.

(** ** Construction *)

Lemma after_nil (w : World) : after w [] = w.
Proof. destruct w; unfold after; simpl. by rewrite app_nil_r. Qed.

Lemma NewServer_eq (a : string) (w : World) :
  NewServer a w =
    match out_err (answer w [EvDial a]) with
    | Some msg => (Val (inr (NetError msg)), after w [EvDial a])
    | None =>
        (Val (inl (mkServer a (mkConn a (Some (List.length (log w)))))),
         after w [EvDial a])
    end.
Proof.
  unfold NewServer, NewConn, Dial, bind, call, ret, answer, after; simpl.
  destruct (out_err (oracle w (log w ++ [EvDial a]))); reflexivity.
Qed.

Lemma dialable_shift (a : string) (rest : list string) (w : World) (i : nat) :
  dialable (after w [EvDial a]) rest i <-> dialable w (a :: rest) (S i).
Proof. unfold dialable. rewrite answer_after. reflexivity. Qed.

(** The loop either stops at the first address that is not dialable, with
    that dial's error and no client, or dials every address and returns a
    client with one server per address, in order. *)
Lemma NewClient_loop_spec (addresses : list string) :
  forall (acc : list Server) (w : World),
    (exists (msg : string) (k : nat),
        (k < List.length addresses)%nat
        /\ (forall i, (i < k)%nat -> dialable w addresses i)
        /\ out_err (answer w (List.map EvDial (take (S k) addresses))) = Some msg
        /\ NewClient_loop addresses acc w
           = (Val (inr (NetError msg)),
              after w (List.map EvDial (take (S k) addresses))))
    \/ ((forall i, (i < List.length addresses)%nat -> dialable w addresses i)
        /\ exists ss : list Server,
            List.map Address ss = addresses
            /\ NewClient_loop addresses acc w
               = (Val (inl (mkClient (acc ++ ss))),
                  after w (List.map EvDial addresses))).
Proof.
  induction addresses as [|a rest IH]; intros acc w.
  - right. split; [simpl; lia|]. exists []. split; [reflexivity|].
    simpl. by rewrite after_nil, app_nil_r.
  - assert (Hstep : NewClient_loop (a :: rest) acc w =
        match out_err (answer w [EvDial a]) with
        | Some msg => (Val (inr (NetError msg)), after w [EvDial a])
        | None =>
            NewClient_loop rest
              (acc ++ [mkServer a (mkConn a (Some (List.length (log w))))])
              (after w [EvDial a])
        end).
    { cbn [NewClient_loop]. unfold bind. rewrite NewServer_eq.
      destruct (out_err (answer w [EvDial a])); reflexivity. }
    rewrite Hstep. clear Hstep.
    destruct (out_err (answer w [EvDial a])) as [msg|] eqn:E.
    + left. exists msg, O. repeat split; [simpl; lia|lia|exact E].
    + set (s := mkServer a (mkConn a (Some (List.length (log w))))).
      destruct (IH (acc ++ [s])%list (after w [EvDial a]))
        as [(msg & k & Hk & Hbefore & Hfail & Hrun) | (Hall & ss & Hss & Hrun)].
      * left. exists msg, (S k). repeat split.
        -- simpl; lia.
        -- intros [|i] Hi; [exact E|]. apply dialable_shift, Hbefore. lia.
        -- rewrite answer_after in Hfail. exact Hfail.
        -- rewrite after_after in Hrun. exact Hrun.
      * right. split.
        -- intros [|i] Hi; [exact E|]. apply dialable_shift, Hall. simpl in Hi. lia.
        -- exists (s :: ss). split; [simpl; by rewrite Hss|].
           rewrite after_after, <- app_assoc in Hrun. exact Hrun.
Qed.

(** C7. [NewClient] with no address fails with [ErrEmptyAddresses] and
    dials nothing.  With at least one address it returns a client exactly
    when every address is dialable; the client then has one server per
    address, in order, and every address was dialed, once and in order; and
    when some address is not dialable it returns an error and no client. *)
Theorem NewClient_all_or_nothing (addresses : list string) (w : World) :
  match addresses with
  | [] => NewClient addresses w = (Val (inr ErrEmptyAddresses), w)
  | _ :: _ =>
      ((forall i, (i < List.length addresses)%nat -> dialable w addresses i)
       <-> exists c w', NewClient addresses w = (Val (inl c), w'))
      /\ (forall c w',
            NewClient addresses w = (Val (inl c), w') ->
            List.map Address (servers c) = addresses
            /\ w' = after w (List.map EvDial addresses))
      /\ (forall k,
            (k < List.length addresses)%nat -> ~ dialable w addresses k ->
            exists e w', NewClient addresses w = (Val (inr e), w'))
  end.
Proof.
  destruct addresses as [|a rest]; [reflexivity|].
  change (NewClient (a :: rest) w) with (NewClient_loop (a :: rest) [] w).
  destruct (NewClient_loop_spec (a :: rest) [] w)
    as [(msg & k & Hk & Hbefore & Hfail & Hrun) | (Hall & ss & Hss & Hrun)];
    rewrite Hrun.
  - assert (Hno : ~ forall i, (i < List.length (a :: rest))%nat ->
                              dialable w (a :: rest) i).
    { intros Hall. specialize (Hall k Hk). unfold dialable in Hall. congruence. }
    split; [|split].
    + split; [intros Hall; contradiction | intros (c & w' & Hc); discriminate].
    + intros c w' Hc. discriminate.
    + intros _ _ _. eauto.
  - split; [|split].
    + split; [eauto | intros _; exact Hall].
    + intros c w' Hc. injection Hc as <- <-. simpl. split; [exact Hss|reflexivity].
    + intros k Hk Hno. exfalso. apply Hno, Hall, Hk.
Qed.

(** ** Fan-out *)

Lemma fanout_all (fuel : nat) (command : string) (ss ss' : list Server) (w w' : World) :
  acknowledged fuel command ss w ss' w' ->
  fanout_loop fuel command ss w = (Val (None, ss'), w').
Proof.
  induction 1 as [w|s s' ss ss' w w1 w2 Hs _ IH]; [reflexivity|].
  cbn [fanout_loop]. unfold bind at 1. rewrite Hs. cbv beta iota.
  change (negb ("OK" =? "OK")%string) with false. cbv iota.
  unfold bind. rewrite IH. reflexivity.
Qed.

Lemma fanout_abort (fuel : nat) (command : string)
    (pre pre' post : list Server) (s s' : Server) (w w1 w2 : World)
    (resp : string) (err : option error) :
  acknowledged fuel command pre w pre' w1 ->
  Server_WriteCommand fuel s command w1 = (Val (resp, err, s'), w2) ->
  err <> None \/ resp <> "OK" ->
  fanout_loop fuel command (pre ++ s :: post)%list w
    = (Val (Some (refusal err), (pre' ++ s' :: post)%list), w2).
Proof.
  intros Hpre Hs Hbad.
  induction Hpre as [w|s0 s0' ss ss' w w0 w1 Hs0 _ IH].
  - simpl. unfold bind. rewrite Hs. cbv beta iota.
    destruct err as [e|]; [reflexivity|].
    destruct Hbad as [Hbad|Hbad]; [congruence|].
    apply String.eqb_neq in Hbad. rewrite Hbad. reflexivity.
  - simpl. unfold bind at 1. rewrite Hs0. cbv beta iota.
    change (negb ("OK" =? "OK")%string) with false. cbv iota.
    unfold bind. rewrite (IH Hs). reflexivity.
Qed.

(** C10. [FlushAll] and [Verbosity] on the servers [pre ++ s :: post]: when
    the servers of [pre] acknowledge the command in order and the exchange
    with [s] then fails or brings a reply other than OK, the call returns
    the failure of [s] alone, and the world it leaves is the one right after
    the exchange with [s]: the servers of [pre] were contacted once each and
    are left as their exchange left them, those of [post] were not contacted
    and are unchanged. *)
Theorem fanout_stops_at_first_failure
    (fuel : nat) (n : Z) (pre pre' post : list Server) (s s' : Server)
    (w w1 w2 : World) (resp : string) (err : option error) :
  err <> None \/ resp <> "OK" ->
  (acknowledged fuel ("flush_all " ++ fmt_d n ++ CRLF) pre w pre' w1 ->
   Server_WriteCommand fuel s ("flush_all " ++ fmt_d n ++ CRLF) w1
     = (Val (resp, err, s'), w2) ->
   Client_FlushAll fuel (mkClient (pre ++ s :: post)%list) n w
     = (Val (Some (refusal err), mkClient (pre' ++ s' :: post)%list), w2))
  /\
  (acknowledged fuel ("verbosity " ++ fmt_d n ++ CRLF) pre w pre' w1 ->
   Server_WriteCommand fuel s ("verbosity " ++ fmt_d n ++ CRLF) w1
     = (Val (resp, err, s'), w2) ->
   Client_Verbosity fuel (mkClient (pre ++ s :: post)%list) n w
     = (Val (Some (refusal err), mkClient (pre' ++ s' :: post)%list), w2)).
Proof.
  intros Hbad. split; intros Hpre Hs.
  - unfold Client_FlushAll, bind. cbn [servers].
    rewrite (fanout_abort _ _ _ _ post _ _ _ _ _ _ _ Hpre Hs Hbad). reflexivity.
  - unfold Client_Verbosity, bind. cbn [servers].
    rewrite (fanout_abort _ _ _ _ post _ _ _ _ _ _ _ Hpre Hs Hbad). reflexivity.
Qed.

(** ** Arithmetic replies *)

(** [pickServer] has one error only. *)
Lemma pickServer_error (c : Client) (key : string) (e : error) :
  pickServer c key = Val (inr e) -> e = ErrNoServers.
Proof.
  unfold pickServer.
  destruct (List.length (servers c) =? 0)%nat; [congruence|].
  destruct (index_servers c _); discriminate.
Qed.

Lemma scanned_non_numeric (resp : string) : non_numeric resp -> scanned resp = 0.
Proof.
  unfold scanned, Sscanf_d_uint64.
  destruct resp as [|ch rest]; [reflexivity|].
  intros [Hd Hs]. cbn [String.length SkipSpace].
  assert (Hlf : Ascii.eqb ch LF = false).
  { destruct (Ascii.eqb_spec ch LF) as [->|]; [discriminate Hs|reflexivity]. }
  assert (Hcr : Ascii.eqb ch CR = false).
  { destruct (Ascii.eqb_spec ch CR) as [->|]; [discriminate Hs|reflexivity]. }
  rewrite Hlf, Hcr. cbn [andb]. rewrite Hs.
  cbn [span_digits]. rewrite Hd. reflexivity.
Qed.

Section Arith.

Variables (fuel : nat) (word : string) (c : Client) (key : string) (delta : Z).
Variable w : World.

Lemma arith_no_server (e : error) :
  pickServer c key = Val (inr e) ->
  arith fuel word c key delta w = (Val (0, Some e, c), w).
Proof. intros H. unfold arith, bind, lift. rewrite H. reflexivity. Qed.

Lemma arith_exchange_failed (i : nat) (s s' : Server) (resp : string)
    (e : error) (w' : World) :
  pickServer c key = Val (inl (i, s)) ->
  Server_WriteCommand fuel s (word ++ " " ++ key ++ " " ++ fmt_d delta ++ CRLF) w
    = (Val (resp, Some e, s'), w') ->
  arith fuel word c key delta w
    = (Val (0, Some (Join ErrWriteFailed e), store c i s'), w').
Proof.
  intros Hp Hx. unfold arith, bind, lift. rewrite Hp. cbv beta iota.
  rewrite Hx. reflexivity.
Qed.

Lemma arith_reply (i : nat) (s s' : Server) (resp : string) (w' : World) :
  pickServer c key = Val (inl (i, s)) ->
  Server_WriteCommand fuel s (word ++ " " ++ key ++ " " ++ fmt_d delta ++ CRLF) w
    = (Val (resp, None, s'), w') ->
  arith fuel word c key delta w
    = (Val (if String.eqb resp "NOT_FOUND"
            then (0, Some ErrNotFound, store c i s')
            else (scanned resp, None, store c i s')), w').
Proof.
  intros Hp Hx. unfold arith, bind, lift. rewrite Hp. cbv beta iota.
  rewrite Hx. cbv beta iota.
  destruct (String.eqb resp "NOT_FOUND"); reflexivity.
Qed.

End Arith.

Lemma arith_outcome_holds (fuel : nat) (word : string) (c : Client) (key : string)
    (delta : Z) (w : World) (i : nat) (s s' : Server) (resp : string)
    (xerr : option error) (w' : World) :
  pickServer c key = Val (inl (i, s)) ->
  Server_WriteCommand fuel s (word ++ " " ++ key ++ " " ++ fmt_d delta ++ CRLF) w
    = (Val (resp, xerr, s'), w') ->
  arith_outcome (arith fuel word c key delta) w c i s' resp xerr w'.
Proof.
  intros Hp Hx. unfold arith_outcome. destruct xerr as [e|].
  - eexists _, _. split; [eapply arith_exchange_failed; eassumption|].
    split; [|discriminate]. split; [discriminate|intros [? _]; discriminate].
  - rewrite (arith_reply _ _ _ _ _ _ _ _ _ _ _ Hp Hx).
    destruct (String.eqb_spec resp "NOT_FOUND") as [->|Hne].
    + eexists _, _. split; [reflexivity|]. split; [tauto|]. congruence.
    + eexists _, _. split; [reflexivity|]. split.
      * split; [discriminate|intros [_ ?]; contradiction].
      * intros _ _. repeat split. apply scanned_non_numeric.
Qed.

(** C8. Once the key's server is picked, [Increment] and [Decrement] return
    [ErrNotFound] exactly when the exchange succeeded with the reply
    NOT_FOUND.  Any other reply of a successful exchange gives no error and
    the value that a scan of the reply for a leading unsigned decimal number
    stores, which is zero when the scan stores nothing; a reply that starts
    with neither a digit nor white space gives zero and no error. *)
Theorem arith_reply_handling (fuel : nat) (c : Client) (key : string) (delta : Z)
    (w : World) (i : nat) (s s' : Server) (resp : string) (xerr : option error)
    (w' : World) :
  pickServer c key = Val (inl (i, s)) ->
  (Server_WriteCommand fuel s ("incr " ++ key ++ " " ++ fmt_d delta ++ CRLF) w
     = (Val (resp, xerr, s'), w') ->
   arith_outcome (Client_Increment fuel c key delta) w c i s' resp xerr w')
  /\
  (Server_WriteCommand fuel s ("decr " ++ key ++ " " ++ fmt_d delta ++ CRLF) w
     = (Val (resp, xerr, s'), w') ->
   arith_outcome (Client_Decrement fuel c key delta) w c i s' resp xerr w').
Proof.
  intros Hp. split; intros Hx.
  - exact (arith_outcome_holds fuel "incr" c key delta w i s s' resp xerr w' Hp Hx).
  - exact (arith_outcome_holds fuel "decr" c key delta w i s s' resp xerr w' Hp Hx).
Qed.

(** ** Retrieval *)

(** A first line that is, white space apart, the sentinel END ends
    [GetValue] with [ErrNotFound], the empty value and no CAS token. *)
Lemma GetValue_not_found (fuel : nat) (s : Server) (key : string) (withCAS : bool)
    (w w1 w2 : World) (n : Z) (c1 : Conn) (line : string) (r : Reader) :
  Conn_Write (server_conn s) ((if withCAS then "gets " else "get ") ++ key ++ CRLF) w
    = (Val (n, None, c1), w1) ->
  ReadString fuel (NewReader c1) LF w1 = (Val (line, None, r), w2) ->
  TrimSpace line = "END" ->
  Server_GetValue fuel s key withCAS w
    = (Val (EmptyString, 0, Some ErrNotFound, mkServer (Address s) (rd r)), w2).
Proof.
  intros Hw Hr Ht.
  unfold Server_GetValue. unfold bind at 1.
  replace (if withCAS then "gets " ++ key ++ CRLF else "get " ++ key ++ CRLF)
    with ((if withCAS then "gets " else "get ") ++ key ++ CRLF)
    by (destruct withCAS; reflexivity).
  rewrite Hw. cbv beta iota. unfold bind at 1. rewrite Hr. cbv beta iota.
  rewrite Ht. reflexivity.
Qed.

(** C6. When the write of the [get] command succeeds and the line then read
    from the connection is, white space apart, the sentinel END, [Get] fails
    with [ErrNotFound]; the value it returns with the error is empty, and it
    does not return success. *)
Theorem Get_not_found (fuel : nat) (c : Client) (key : string) (w w1 w2 : World)
    (i : nat) (s : Server) (n : Z) (c1 : Conn) (line : string) (r : Reader) :
  pickServer c key = Val (inl (i, s)) ->
  Conn_Write (server_conn s) ("get " ++ key ++ CRLF) w = (Val (n, None, c1), w1) ->
  ReadString fuel (NewReader c1) LF w1 = (Val (line, None, r), w2) ->
  TrimSpace line = "END" ->
  Client_Get fuel c key w
    = (Val (EmptyString, Some ErrNotFound, store c i (mkServer (Address s) (rd r))), w2).
Proof.
  intros Hp Hw Hr Ht.
  unfold Client_Get, bind at 1, lift. rewrite Hp. cbv beta iota.
  unfold bind.
  rewrite (GetValue_not_found fuel s key false w w1 w2 n c1 line r Hw Hr Ht).
  reflexivity.
Qed.

(** On the wire: whatever else the environment does, when it accepts the
    command and its first answer to a read starts with a line that is END,
    [Get] returns [ErrNotFound] after exactly these two socket calls. *)
Lemma Get_not_found_on_the_wire (fuel : nat) (c : Client) (key address a : string)
    (h : handle) (w : World) (i j : nat) :
  let s := mkServer address (mkConn a (Some h)) in
  let sent := [EvWrite h ("get " ++ key ++ CRLF)] in
  let read := [EvWrite h ("get " ++ key ++ CRLF); EvRead h defaultBufSize] in
  let d := delivered defaultBufSize (answer w read) in
  pickServer c key = Val (inl (i, s)) ->
  out_err (answer w sent) = None ->
  out_err (answer w read) = None ->
  IndexByte d LF = Some j ->
  TrimSpace (str_take (j + 1) d) = "END" ->
  Client_Get (S (S fuel)) c key w
    = (Val (EmptyString, Some ErrNotFound, store c i s), after w read).
Proof.
  intros s sent read d Hp Hsent Hread Hj Ht.
  unfold Client_Get, bind at 1, lift. rewrite Hp. cbv beta iota.
  unfold bind.
  assert (Hd : delivered defaultBufSize
                 (answer (after w sent) [EvRead h defaultBufSize]) = d)
    by (unfold d; rewrite answer_after; reflexivity).
  rewrite (GetValue_not_found (S (S fuel)) s key false w (after w sent)
             (after w read) (out_n (answer w sent)) (mkConn a (Some h))
             (str_take (j + 1) d)
             (mkReader (mkConn a (Some h)) (str_drop (j + 1) d) None)).
  - reflexivity.
  - cbn [server_conn s]. rewrite (Conn_Write_cases a h w).
    fold sent. rewrite Hsent. reflexivity.
  - rewrite (ReadString_first_read fuel a h (after w sent) j);
      [| rewrite answer_after; exact Hread | rewrite Hd; exact Hj].
    rewrite Hd, after_after. reflexivity.
  - exact Ht.
Qed.

(** ** Merging statistics *)

(** After a [range] over the entries [l], a key has the value it had before,
    or else the value of its first entry in [l]. *)
Lemma merge_range_lookup (l : list (string * string)) :
  forall (acc : gmap string string) (k : string),
    merge_range acc l !! k =
      match acc !! k with
      | Some v => Some v
      | None => (list_to_map l : gmap string string) !! k
      end.
Proof.
  induction l as [|[k1 v1] l IH]; intros acc k.
  - simpl. rewrite lookup_empty. by destruct (acc !! k).
  - cbn [merge_range fold_left]. fold (merge_range (merge_entry acc (k1, v1)) l).
    rewrite IH. unfold merge_entry. cbn [fst snd list_to_map foldr].
    destruct (decide (k1 = k)) as [->|Hne].
    + destruct (acc !! k) as [v|] eqn:E.
      * by rewrite E.
      * by rewrite !lookup_insert_eq.
    + destruct (acc !! k1) as [v|] eqn:E.
      * destruct (acc !! k); [done|]. by rewrite lookup_insert_ne.
      * rewrite !lookup_insert_ne by done. done.
Qed.

(** The order in which Go visits the entries of [stats] does not matter. *)
Lemma merge_range_any_order (acc stats : gmap string string)
    (l : list (string * string)) :
  l ≡ₚ map_to_list stats ->
  merge_range acc l = merge_range acc (map_to_list stats).
Proof.
  intros Hl. apply map_eq. intros k. rewrite !merge_range_lookup.
  destruct (acc !! k); [done|].
  f_equal. apply list_to_map_proper; [|done].
  rewrite Hl. apply NoDup_fst_map_to_list.
Qed.

Lemma merge_stats_lookup (acc : gmap string string)
    (stats : option (gmap string string)) (k : string) :
  merge_range acc (entries_of stats) !! k =
    match acc !! k with
    | Some v => Some v
    | None => reported_by stats k
    end.
Proof.
  rewrite merge_range_lookup. destruct (acc !! k); [done|].
  destruct stats as [m|]; simpl; [|apply lookup_empty].
  by rewrite list_to_map_to_list.
Qed.

Lemma StatsAll_loop_merges (fuel : nat) (ss ss' : list Server) (w w' : World)
    (results : list (option (gmap string string))) :
  reported fuel ss w results ss' w' ->
  forall acc : gmap string string,
  exists m : gmap string string,
    StatsAll_loop fuel ss acc w = (Val (m, None, ss'), w')
    /\ forall k, m !! k = match acc !! k with
                          | Some v => Some v
                          | None => first_reported k results
                          end.
Proof.
  induction 1 as [w|s s' ss ss' w w1 w2 stats results Hs _ IH]; intros acc.
  - exists acc. split; [reflexivity|]. intros k. simpl. by destruct (acc !! k).
  - destruct (IH (merge_range acc (entries_of stats))) as (m & Hm & Hk).
    exists m. split.
    + cbn [StatsAll_loop]. unfold bind at 1. rewrite Hs. cbv beta iota.
      unfold bind. rewrite Hm. reflexivity.
    + intros k. rewrite Hk, merge_stats_lookup. cbn [first_reported].
      destruct (acc !! k); [done|]. by destruct (reported_by stats k).
Qed.

(** C9. When the [GetStats] calls on the client's servers, made in list
    order, succeed with [results], [StatsAll] returns without error the map
    in which every key has the value from the first server in the list that
    reported it; what later servers report for that key is dropped. *)
Theorem StatsAll_first_writer_wins (fuel : nat) (c : Client) (w w' : World)
    (results : list (option (gmap string string))) (ss' : list Server) :
  reported fuel (servers c) w results ss' w' ->
  exists m : gmap string string,
    Client_StatsAll fuel c w = (Val (m, None, mkClient ss'), w')
    /\ forall k : string, m !! k = first_reported k results.
Proof.
  intros Hrep.
  destruct (StatsAll_loop_merges fuel _ _ _ _ _ Hrep ∅) as (m & Hm & Hk).
  exists m. split.
  - unfold Client_StatsAll, bind. rewrite Hm. reflexivity.
  - intros k. rewrite Hk. by rewrite lookup_empty.
Qed.

(** ** Reading the data block *)

(** [Reader.Read] with bytes in the buffer hands out buffered bytes only and
    does not touch the network: when fewer are buffered than asked for, the
    count is short and the tail of [p] is left as it was. *)
Lemma Reader_Read_buffered_only (b : Reader) (p : string) (w : World) :
  p <> EmptyString -> buffered b <> EmptyString ->
  let n := Nat.min (String.length p) (String.length (buffered b)) in
  Reader_Read b p w
    = (Val (n, str_take n (buffered b) ++ str_drop n p, None,
            mkReader (rd b) (str_drop n (buffered b)) (rerr b)), w).
Proof.
  intros Hp Hb n. unfold Reader_Read.
  destruct p as [|ch p]; [contradiction|].
  destruct (buffered b) as [|ch' rest] eqn:E; [contradiction|].
  reflexivity.
Qed.

(** C3. The header declares five bytes; the exchange succeeds, yet the one
    [Read] took a single byte of the data block, the only one buffered, and
    the value returned is that byte followed by four zero bytes, not the
    five bytes the server sent. *)
Theorem GetValue_short_read :
  let s := mkServer "cache:11211" (mkConn "cache:11211" (Some O)) in
  Server_GetValue 4 s "k" false fragmented
    = (Val ("x" ++ zeros 4, 0, None, s),
       after fragmented [EvWrite O ("get k" ++ CRLF); EvRead O 4096; EvRead O 4096])
  /\ "x" ++ zeros 4 <> payload.
Proof.
  split; [vm_compute; reflexivity | discriminate].
Qed.

(** ** Round trip *)

(** C4. Against a memcached process behind a transport that delivers every
    byte a read asks for, [Set] of a 5000-byte value succeeds and the [Get]
    that follows fails with [ErrUnexpectedResponse]: the one [Read] of the
    data block takes the 4080 bytes left in the 4096-byte buffer after the
    header line, and the rest of the value is then read as the closing
    line. *)
Theorem Set_Get_large_value :
  let a := "cache:11211" in
  let c := mkClient [mkServer a (mkConn a (Some O))] in
  let w0 := mkWorld (memcached []) [] in
  let w1 := after w0 [EvDial a] in
  let w2 := after w1 [EvWrite O ("set k 0 0 5000" ++ CRLF ++ large ++ CRLF);
                      EvRead O 4096] in
  let w3 := after w2 [EvWrite O ("get k" ++ CRLF); EvRead O 4096; EvRead O 4096] in
  NewClient [a] w0 = (Val (inl c), w1)
  /\ Client_Set 4 c "k" large 0 w1 = (Val (None, c), w2)
  /\ Client_Get 4 c "k" w2
     = (Val (str_take 4080 large ++ zeros 920, Some ErrUnexpectedResponse, c), w3).
Proof.
  split; [reflexivity | split; reflexivity].
Qed.

(** ** Instances *)

(** [Get] of a key that a memcached process does not hold. *)
Lemma Get_not_found_witness :
  let w := mkWorld (memcached []) [EvDial "cache:11211"] in
  let w1 := after w [EvWrite O ("get k" ++ CRLF)] in
  let w2 := after w1 [EvRead O 4096] in
  let line := "END" ++ CRLF in
  pickServer single "k" = Val (inl (O, cache))
  /\ Conn_Write (server_conn cache) ("get k" ++ CRLF) w
     = (Val (7, None, server_conn cache), w1)
  /\ ReadString 4 (NewReader (server_conn cache)) LF w1
     = (Val (line, None, NewReader (server_conn cache)), w2)
  /\ TrimSpace line = "END"
  /\ Client_Get 4 single "k" w = (Val (EmptyString, Some ErrNotFound, single), w2).
Proof.
  intros w w1 w2 line.
  assert (Hp : pickServer single "k" = Val (inl (O, cache)))
    by reflexivity.
  assert (Hw : Conn_Write (server_conn cache) ("get k" ++ CRLF) w
               = (Val (7, None, server_conn cache), w1)) by reflexivity.
  assert (Hr : ReadString 4 (NewReader (server_conn cache)) LF w1
               = (Val (line, None, NewReader (server_conn cache)), w2))
    by reflexivity.
  assert (Ht : TrimSpace line = "END") by reflexivity.
  refine (conj Hp (conj Hw (conj Hr (conj Ht _)))).
  exact (Get_not_found 4 single "k" w w1 w2 O cache 7 (server_conn cache) line
           (NewReader (server_conn cache)) Hp Hw Hr Ht).
Defined.

(** [Increment] and [Decrement] answered with ERROR. *)
Lemma arith_reply_handling_witness :
  let wi := world_of [ok_n 10; ok_data ("ERROR" ++ CRLF)] in
  let wi' := after wi [EvWrite O ("incr k 1" ++ CRLF); EvRead O 4096] in
  let wd' := after wi [EvWrite O ("decr k 1" ++ CRLF); EvRead O 4096] in
  pickServer single "k" = Val (inl (O, cache))
  /\ Server_WriteCommand 4 cache ("incr k 1" ++ CRLF) wi = (Val ("ERROR", None, cache), wi')
  /\ Server_WriteCommand 4 cache ("decr k 1" ++ CRLF) wi = (Val ("ERROR", None, cache), wd')
  /\ arith_outcome (Client_Increment 4 single "k" 1) wi single O cache "ERROR" None wi'
  /\ arith_outcome (Client_Decrement 4 single "k" 1) wi single O cache "ERROR" None wd'.
Proof.
  intros wi wi' wd'.
  assert (Hp : pickServer single "k" = Val (inl (O, cache)))
    by (vm_compute; reflexivity).
  assert (Hi : Server_WriteCommand 4 cache ("incr k 1" ++ CRLF) wi
               = (Val ("ERROR", None, cache), wi')) by (vm_compute; reflexivity).
  assert (Hd : Server_WriteCommand 4 cache ("decr k 1" ++ CRLF) wi
               = (Val ("ERROR", None, cache), wd')) by (vm_compute; reflexivity).
  refine (conj Hp (conj Hi (conj Hd (conj _ _)))).
  - exact (proj1 (arith_reply_handling 4 single "k" 1 wi O cache cache "ERROR" None wi' Hp) Hi).
  - exact (proj2 (arith_reply_handling 4 single "k" 1 wi O cache cache "ERROR" None wd' Hp) Hd).
Defined.

(** The first server acknowledges, the second answers ERROR; the third is
    never reached. *)
Lemma fanout_stops_at_first_failure_witness :
  let w := world_of [ok_n 13; ok_data ("OK" ++ CRLF); ok_n 13; ok_data ("ERROR" ++ CRLF)] in
  let flush := "flush_all 0" ++ CRLF in
  let verb := "verbosity 0" ++ CRLF in
  let wf := after w [EvWrite 0%nat flush; EvRead 0%nat 4096; EvWrite 1%nat flush; EvRead 1%nat 4096] in
  let wv := after w [EvWrite 0%nat verb; EvRead 0%nat 4096; EvWrite 1%nat verb; EvRead 1%nat 4096] in
  Client_FlushAll 4 (mkClient three) 0 w = (Val (Some ErrStoreFailed, mkClient three), wf)
  /\ Client_Verbosity 4 (mkClient three) 0 w = (Val (Some ErrStoreFailed, mkClient three), wv).
Proof.
  intros w flush verb wf wv.
  assert (Hbad : @None error <> None \/ "ERROR" <> "OK") by (right; discriminate).
  split.
  - refine (proj1 (fanout_stops_at_first_failure 4 0
              [node 0 "a:11211"] [node 0 "a:11211"] [node 2 "c:11211"]
              (node 1 "b:11211") (node 1 "b:11211")
              w (after w [EvWrite 0%nat flush; EvRead 0%nat 4096]) wf "ERROR" None Hbad) _ _).
    + eapply ack_cons; [vm_compute; reflexivity | apply ack_nil].
    + vm_compute; reflexivity.
  - refine (proj2 (fanout_stops_at_first_failure 4 0
              [node 0 "a:11211"] [node 0 "a:11211"] [node 2 "c:11211"]
              (node 1 "b:11211") (node 1 "b:11211")
              w (after w [EvWrite 0%nat verb; EvRead 0%nat 4096]) wv "ERROR" None Hbad) _ _).
    + eapply ack_cons; [vm_compute; reflexivity | apply ack_nil].
    + vm_compute; reflexivity.
Defined.

Lemma StatsAll_first_writer_wins_witness :
  let two := [node 0 "a:11211"; node 1 "b:11211"] in
  let w := world_of
    [ok_n 7; ok_data ("STAT pid 1" ++ CRLF ++ "STAT uptime 5" ++ CRLF ++ "END" ++ CRLF);
     ok_n 7; ok_data ("STAT pid 2" ++ CRLF ++ "STAT version 1.6" ++ CRLF ++ "END" ++ CRLF)] in
  let w' := after w [EvWrite 0%nat ("stats" ++ CRLF); EvRead 0%nat 4096;
                     EvWrite 1%nat ("stats" ++ CRLF); EvRead 1%nat 4096] in
  reported 4 two w [Some stats_a; Some stats_b] two w'
  /\ exists m : gmap string string,
       Client_StatsAll 4 (mkClient two) w = (Val (m, None, mkClient two), w')
       /\ m !! "pid" = Some "1"
       /\ m !! "uptime" = Some "5"
       /\ m !! "version" = Some "1.6".
Proof.
  intros two w w'.
  assert (Hrep : reported 4 two w [Some stats_a; Some stats_b] two w').
  { eapply rep_cons; [vm_compute; reflexivity|].
    eapply rep_cons; [vm_compute; reflexivity|].
    apply rep_nil. }
  split; [exact Hrep|].
  destruct (StatsAll_first_writer_wins 4 (mkClient two) w w'
              [Some stats_a; Some stats_b] two Hrep) as (m & Hm & Hk).
  exists m. split; [exact Hm|].
  rewrite !Hk. split; [|split]; reflexivity.
Defined.

(** * Further properties: the rest of the client *)

(** ** Servers by address *)

Lemma pickServerFromAddr_loop_spec (addr : string) (ss : list Server) :
  forall k : nat,
    match pickServerFromAddr_loop ss addr k with
    | (Some s, i, None) =>
        exists j : nat,
          i = (k + j)%nat /\ ss !! j = Some s /\ Address s = addr
          /\ unknown addr (take j ss)
    | (None, i, Some e) =>
        e = ErrNotFound /\ i = (k + List.length ss)%nat /\ unknown addr ss
    | _ => False
    end.
Proof.
  induction ss as [|s0 ss IH]; intros k.
  - simpl. repeat split; [lia | constructor].
  - cbn [pickServerFromAddr_loop].
    destruct (String.eqb_spec (Address s0) addr) as [Heq|Hne].
    + exists O. repeat split; [lia | exact Heq | constructor].
    + specialize (IH (S k)).
      destruct (pickServerFromAddr_loop ss addr (S k)) as [[[s|] i] [e|]];
        try contradiction.
      * destruct IH as (j & -> & Hj & Ha & Hbefore).
        exists (S j). repeat split; [lia | exact Hj | exact Ha |].
        simpl. constructor; assumption.
      * destruct IH as (-> & -> & Hall).
        repeat split; [simpl; lia | constructor; assumption].
Qed.

(** X1. [pickServerFromAddr] returns the first server of the slice that has
    the address, with its index; it fails, with [ErrNotFound] and the length
    of the slice as index, exactly when no server has the address. *)
Theorem pickServerFromAddr_first_match (c : Client) (addr : string) :
  match pickServerFromAddr c addr with
  | (Some s, i, None) =>
      servers c !! i = Some s /\ Address s = addr
      /\ unknown addr (take i (servers c))
  | (None, i, Some e) =>
      e = ErrNotFound /\ i = List.length (servers c) /\ unknown addr (servers c)
  | _ => False
  end.
Proof.
  unfold pickServerFromAddr.
  pose proof (pickServerFromAddr_loop_spec addr (servers c) O) as H.
  destruct (pickServerFromAddr_loop (servers c) addr O) as [[[s|] i] [e|]];
    try contradiction.
  - destruct H as (j & -> & Hj & Ha & Hb). simpl. auto.
  - exact H.
Qed.

Lemma pickServerFromAddr_unknown (c : Client) (addr : string) :
  unknown addr (servers c) ->
  pickServerFromAddr c addr = (None, List.length (servers c), Some ErrNotFound).
Proof.
  intros Hu. unfold pickServerFromAddr.
  pose proof (pickServerFromAddr_loop_spec addr (servers c) O) as H.
  destruct (pickServerFromAddr_loop (servers c) addr O) as [[[s|] i] [e|]];
    try contradiction.
  - destruct H as (j & _ & Hj & Ha & _). exfalso.
    unfold unknown in Hu. rewrite Forall_forall in Hu.
    apply (Hu s); [|exact Ha]. apply list_elem_of_lookup. eauto.
  - destruct H as (-> & -> & _). reflexivity.
Qed.

Lemma pickServerFromAddr_found (pre post : list Server) (s : Server) :
  unknown (Address s) pre ->
  pickServerFromAddr (mkClient (pre ++ s :: post)%list) (Address s)
    = (Some s, List.length pre, None).
Proof.
  intros Hu. unfold pickServerFromAddr. cbn [servers].
  assert (H : forall k, pickServerFromAddr_loop (pre ++ s :: post)%list (Address s) k
                        = (Some s, (k + List.length pre)%nat, None)).
  { induction Hu as [|s0 pre Hs0 _ IH]; intros k.
    - simpl. rewrite String.eqb_refl. f_equal. f_equal. lia.
    - simpl. apply String.eqb_neq in Hs0. rewrite Hs0, IH. f_equal. f_equal. simpl. lia. }
  apply (H O).
Qed.

(** X2. For an address that no server has, [Stats], [Version], [Extra] and
    [Quit] fail with [ErrNotFound]; they make no socket call and leave the
    client as it is. *)
Theorem unknown_address_not_found (fuel : nat) (c : Client) (addr cmd : string)
    (w : World) :
  unknown addr (servers c) ->
  Client_Stats fuel c addr w = (Val (None, Some ErrNotFound, c), w)
  /\ Client_Version fuel c addr w = (Val (EmptyString, Some ErrNotFound, c), w)
  /\ Client_Extra fuel c addr cmd w = (Val (EmptyString, Some ErrNotFound, c), w)
  /\ Client_Quit c addr w = (Val (Some ErrNotFound, c), w).
Proof.
  intros Hu.
  unfold Client_Stats, Client_Version, Client_Extra, Client_Quit.
  rewrite (pickServerFromAddr_unknown c addr Hu). repeat split.
Qed.

(** ** Leaving *)

Lemma Server_Close_stream (s : Server) (h : handle) (w : World) :
  conn (server_conn s) = Some h ->
  Server_Close s w = (Val tt, after w [EvClose h]).
Proof. intros H. unfold Server_Close. rewrite H. reflexivity. Qed.

(** X3. [Quit] closes the stream of the first server that has the address,
    with one socket call, and takes that server, and no other, out of the
    slice; the servers around it keep their order.  When no other server has
    the address, the address is unknown to the client afterwards. *)
Theorem Quit_removes_first_match (pre post : list Server) (s : Server)
    (h : handle) (w : World) :
  unknown (Address s) pre ->
  conn (server_conn s) = Some h ->
  Client_Quit (mkClient (pre ++ s :: post)%list) (Address s) w
    = (Val (None, mkClient (pre ++ post)%list), after w [EvClose h])
  /\ (unknown (Address s) post ->
      pickServerFromAddr (mkClient (pre ++ post)%list) (Address s)
        = (None, List.length (pre ++ post)%list, Some ErrNotFound)).
Proof.
  intros Hpre Hh. split.
  - unfold Client_Quit. rewrite (pickServerFromAddr_found pre post s Hpre).
    cbn [servers]. rewrite list_lookup_middle by reflexivity.
    unfold bind. rewrite (Server_Close_stream s h w Hh).
    rewrite delete_middle. reflexivity.
  - intros Hpost. apply pickServerFromAddr_unknown. cbn [servers].
    unfold unknown in *. apply Forall_app. split; assumption.
Qed.

Lemma QuitAll_loop_closes (ss : list Server) :
  connected ss ->
  forall w : World,
    QuitAll_loop ss w = (Val tt, after w (List.map EvClose (streams ss))).
Proof.
  induction 1 as [|s ss Hs _ IH]; intros w.
  - simpl. by rewrite after_nil.
  - destruct (conn (server_conn s)) as [h|] eqn:E; [|contradiction].
    cbn [QuitAll_loop]. unfold bind. rewrite (Server_Close_stream s h w E).
    rewrite IH, after_after. unfold streams. cbn [omap list_omap]. rewrite E.
    reflexivity.
Qed.

(** X4. When every server has a stream, [QuitAll] closes each stream once,
    in slice order, makes no other socket call, and leaves the client with
    no servers. *)
Theorem QuitAll_closes_every_stream (c : Client) (w : World) :
  connected (servers c) ->
  Client_QuitAll c w
    = (Val (None, mkClient []), after w (List.map EvClose (streams (servers c)))).
Proof.
  intros Hc. unfold Client_QuitAll, bind.
  rewrite (QuitAll_loop_closes (servers c) Hc w). reflexivity.
Qed.

(** X5. A client without servers, as [QuitAll] leaves it: every command
    that routes by key fails with [ErrNoServers], and the commands that go
    to all servers succeed with nothing done ([StatsAll] and [Versions] with
    an empty map); none of them makes a socket call. *)
Theorem no_servers (fuel : nat) (key value : string) (n cas : Z) (w : World) :
  let c := mkClient [] in
  let refused := (Val (Some ErrNoServers, c), w) in
  Client_Set fuel c key value n w = refused
  /\ Client_Add fuel c key value n w = refused
  /\ Client_Replace fuel c key value n w = refused
  /\ Client_Append fuel c key value w = refused
  /\ Client_Prepend fuel c key value w = refused
  /\ Client_CAS fuel c key value n cas w = refused
  /\ Client_Delete fuel c key w = refused
  /\ Client_Touch fuel c key n w = refused
  /\ Client_Get fuel c key w = (Val (EmptyString, Some ErrNoServers, c), w)
  /\ Client_Gets fuel c key w = (Val (EmptyString, 0, Some ErrNoServers, c), w)
  /\ Client_Increment fuel c key n w = (Val (0, Some ErrNoServers, c), w)
  /\ Client_Decrement fuel c key n w = (Val (0, Some ErrNoServers, c), w)
  /\ Client_FlushAll fuel c n w = (Val (None, c), w)
  /\ Client_Verbosity fuel c n w = (Val (None, c), w)
  /\ Client_StatsAll fuel c w = (Val (∅, None, c), w)
  /\ Client_Versions fuel c w = (Val (Some ∅, None, c), w).
Proof.
  intros c refused. repeat split.
Qed.

(** ** Lines that arrive in pieces *)

Lemma IndexByte_drop_none (c : ascii) (s : nat) :
  forall acc : string, IndexByte acc c = None -> IndexByte (str_drop s acc) c = None.
Proof.
  induction s as [|s IH]; intros [|ch acc] H; simpl; auto.
  simpl in H. destruct (Ascii.eqb ch c); [discriminate|].
  apply IH. destruct (IndexByte acc c); [discriminate|reflexivity].
Qed.

Lemma IndexByte_append_none (c : ascii) (d : string) :
  forall acc : string,
    IndexByte acc c = None -> IndexByte d c = None -> IndexByte (acc ++ d) c = None.
Proof.
  induction acc as [|ch acc IH]; intros Ha Hd; simpl; [exact Hd|].
  simpl in Ha. destruct (Ascii.eqb ch c); [discriminate|].
  rewrite IH; [reflexivity| |exact Hd].
  destruct (IndexByte acc c); [discriminate|reflexivity].
Qed.

Lemma str_drop_append (d : string) :
  forall acc : string, str_drop (String.length acc) (acc ++ d) = d.
Proof. induction acc as [|ch acc IH]; simpl; [by destruct d|exact IH]. Qed.

Lemma str_take_append_more (d : string) (k : nat) :
  forall acc : string,
    str_take (String.length acc + k) (acc ++ d) = acc ++ str_take k d.
Proof. induction acc as [|ch acc IH]; simpl; [reflexivity|by rewrite IH]. Qed.

Lemma str_drop_append_more (d : string) (k : nat) :
  forall acc : string, str_drop (String.length acc + k) (acc ++ d) = str_drop k d.
Proof. induction acc as [|ch acc IH]; simpl; [reflexivity|exact IH]. Qed.

Lemma nonempty_length (d : string) :
  d <> EmptyString -> (0 <? String.length d)%nat = true.
Proof. destruct d; [contradiction|reflexivity]. Qed.

(** One turn of [ReadSlice] that has to fill: no line feed is buffered, the
    buffer has room, the read succeeds and brings bytes. *)
Lemma ReadSlice_loop_fill (fuel s : nat) (a : string) (h : handle) (acc : string)
    (w : World) :
  IndexByte acc LF = None ->
  (String.length acc < defaultBufSize)%nat ->
  read_ok h w acc ->
  chunk h w acc <> EmptyString ->
  ReadSlice_loop (S fuel) LF s (mkReader (mkConn a (Some h)) acc None) w
    = ReadSlice_loop fuel LF (String.length acc)
        (mkReader (mkConn a (Some h)) (acc ++ chunk h w acc) None)
        (after_read h w acc).
Proof.
  unfold read_ok, chunk, after_read, read_event.
  intros Hacc Hroom Hok Hne.
  cbn [ReadSlice_loop buffered rerr rd].
  rewrite (IndexByte_drop_none LF s acc Hacc).
  assert (Hfull : (defaultBufSize <=? String.length acc)%nat = false)
    by (apply Nat.leb_gt; exact Hroom).
  rewrite Hfull. unfold bind at 1, fill. cbn [buffered]. rewrite Hfull.
  change maxConsecutiveEmptyReads with (S 99). rewrite fill_loop_eq.
  unfold bind at 1. cbn [rd buffered rerr].
  rewrite (Conn_Read_cases a h w (zeros (defaultBufSize - String.length acc))).
  rewrite zeros_length, Hok.
  cbv beta iota. rewrite str_take_put, (nonempty_length _ Hne).
  reflexivity.
Qed.

Lemma ReadSlice_loop_fed (a : string) (h : handle) (n : nat) (w w' : World)
    (acc line rest : string) :
  fed h n w acc line rest w' ->
  IndexByte acc LF = None ->
  forall fuel s : nat,
    (n < fuel)%nat ->
    ReadSlice_loop fuel LF s (mkReader (mkConn a (Some h)) acc None) w
      = (Val (line, None, mkReader (mkConn a (Some h)) rest None), w').
Proof.
  induction 1 as [w acc i Hroom Hok Hi | n w w' acc line rest Hroom Hok Hne Hnone _ IH];
    intros Hacc fuel s Hfuel.
  - destruct fuel as [|[|fuel]]; [lia|lia|].
    assert (Hne : chunk h w acc <> EmptyString)
      by (intros E; rewrite E in Hi; discriminate).
    rewrite (ReadSlice_loop_fill _ s a h acc w Hacc Hroom Hok Hne).
    cbn [ReadSlice_loop buffered rerr rd].
    rewrite str_drop_append, Hi.
    replace (i + String.length acc + 1)%nat with (String.length acc + (i + 1))%nat by lia.
    rewrite str_take_append_more, str_drop_append_more. reflexivity.
  - destruct fuel as [|fuel]; [lia|].
    assert (Hne' : chunk h w acc <> EmptyString) by exact Hne.
    rewrite (ReadSlice_loop_fill fuel s a h acc w Hacc Hroom Hok Hne).
    apply IH; [apply IndexByte_append_none; assumption | lia].
Qed.

Lemma ReadString_fed (a : string) (h : handle) (n fuel : nat) (w w' : World)
    (line rest : string) :
  fed h n w EmptyString line rest w' ->
  (n < fuel)%nat ->
  ReadString fuel (NewReader (mkConn a (Some h))) LF w
    = (Val (line, None, mkReader (mkConn a (Some h)) rest None), w').
Proof.
  intros Hfed Hfuel. destruct fuel as [|fuel]; [lia|].
  unfold ReadString, bind at 1. cbn [collectFragments].
  unfold bind at 1, ReadSlice, NewReader.
  rewrite (ReadSlice_loop_fed a h n w w' EmptyString line rest Hfed eq_refl
             (S fuel) O Hfuel).
  reflexivity.
Qed.

(** An exchange whose command is accepted and whose reply line arrives in
    [n] pieces: [WriteCommand] returns the line, trimmed, after one write
    and [n] reads. *)
Lemma WriteCommand_fed (address a cmd : string) (h : handle) (n fuel : nat)
    (w w' : World) (line rest : string) :
  out_err (answer w [EvWrite h cmd]) = None ->
  fed h n (after w [EvWrite h cmd]) EmptyString line rest w' ->
  (n < fuel)%nat ->
  Server_WriteCommand fuel (mkServer address (mkConn a (Some h))) cmd w
    = (Val (TrimSpace line, None, mkServer address (mkConn a (Some h))), w').
Proof.
  intros Hsent Hfed Hfuel.
  unfold Server_WriteCommand, bind at 1. cbn [server_conn Address].
  rewrite (Conn_Write_cases a h w cmd), Hsent. cbv beta iota.
  unfold bind at 1.
  rewrite (ReadString_fed a h n fuel _ w' line rest Hfed Hfuel).
  reflexivity.
Qed.

(** ** Storage commands on the wire *)

Lemma pickServer_lookup (c : Client) (key : string) (i : nat) (s : Server) :
  pickServer c key = Val (inl (i, s)) -> servers c !! i = Some s.
Proof.
  unfold pickServer.
  destruct (List.length (servers c) =? 0)%nat; [discriminate|].
  unfold index_servers.
  destruct (Z.rem _ _ <? 0); [discriminate|].
  destruct (servers c !! Z.to_nat _) as [s0|] eqn:E; [|discriminate].
  intros H. injection H as <- <-. exact E.
Qed.

Lemma store_same (c : Client) (i : nat) (s : Server) :
  servers c !! i = Some s -> store c i s = c.
Proof.
  intros H. unfold store. rewrite (list_insert_id _ _ _ H). by destruct c.
Qed.

Lemma WriteCommand_exchanged (address a cmd : string) (h : handle) (n fuel : nat)
    (w w' : World) (line rest : string) :
  exchanged h n w cmd line rest w' ->
  (n < fuel)%nat ->
  Server_WriteCommand fuel (mkServer address (mkConn a (Some h))) cmd w
    = (Val (TrimSpace line, None, mkServer address (mkConn a (Some h))), w').
Proof.
  intros [Hs Hf] Hn.
  exact (WriteCommand_fed address a cmd h n fuel w w' line rest Hs Hf Hn).
Qed.

Ltac by_reply Hp Hn :=
  let Hx := fresh "Hx" in
  intros Hx;
  unfold bind at 1, lift; rewrite Hp; cbv beta iota; unfold bind;
  rewrite (WriteCommand_exchanged _ _ _ _ _ _ _ _ _ _ Hx Hn);
  rewrite (store_same _ _ _ (pickServer_lookup _ _ _ _ Hp));
  unfold verdict; destruct (String.eqb (TrimSpace _) _); reflexivity.

(** X6. The storage commands, once the key's server is picked: when the one
    write of the command text is accepted and the reply line arrives, in
    however many reads, the command makes no other socket call and returns
    nil exactly when the line, trimmed, is its sentinel: STORED for [Set],
    [Add], [Replace], [Append], [Prepend] and [CAS], DELETED for [Delete],
    OK for [Touch].  Every other reply, NOT_FOUND and EXISTS too, gives
    [ErrStoreFailed]. *)
Theorem storage_commands_by_reply (fuel n : nat) (c : Client)
    (key value address a : string) (expiration cas : Z) (h : handle) (i : nat)
    (w w' : World) (line rest : string) :
  pickServer c key = Val (inl (i, mkServer address (mkConn a (Some h)))) ->
  (n < fuel)%nat ->
  (exchanged h n w
     ("set " ++ key ++ " 0 " ++ fmt_d expiration ++ " " ++ fmt_d (len value)
        ++ CRLF ++ value ++ CRLF) line rest w' ->
   Client_Set fuel c key value expiration w = (Val (verdict line "STORED", c), w'))
  /\ (exchanged h n w
        ("add " ++ key ++ " 0 " ++ fmt_d expiration ++ " " ++ fmt_d (len value)
           ++ CRLF ++ value ++ CRLF) line rest w' ->
      Client_Add fuel c key value expiration w = (Val (verdict line "STORED", c), w'))
  /\ (exchanged h n w
        ("replace " ++ key ++ " 0 " ++ fmt_d expiration ++ " " ++ fmt_d (len value)
           ++ CRLF ++ value ++ CRLF) line rest w' ->
      Client_Replace fuel c key value expiration w
        = (Val (verdict line "STORED", c), w'))
  /\ (exchanged h n w
        ("append " ++ key ++ " 0 0 " ++ fmt_d (len value) ++ CRLF ++ value ++ CRLF)
        line rest w' ->
      Client_Append fuel c key value w = (Val (verdict line "STORED", c), w'))
  /\ (exchanged h n w
        ("prepend " ++ key ++ " 0 0 " ++ fmt_d (len value) ++ CRLF ++ value ++ CRLF)
        line rest w' ->
      Client_Prepend fuel c key value w = (Val (verdict line "STORED", c), w'))
  /\ (exchanged h n w
        ("cas " ++ key ++ " 0 " ++ fmt_d expiration ++ " " ++ fmt_d (len value)
           ++ " " ++ fmt_d cas ++ CRLF ++ value ++ CRLF) line rest w' ->
      Client_CAS fuel c key value expiration cas w
        = (Val (verdict line "STORED", c), w'))
  /\ (exchanged h n w ("delete " ++ key ++ CRLF) line rest w' ->
      Client_Delete fuel c key w = (Val (verdict line "DELETED", c), w'))
  /\ (exchanged h n w ("touch " ++ key ++ " " ++ fmt_d expiration ++ CRLF)
        line rest w' ->
      Client_Touch fuel c key expiration w = (Val (verdict line "OK", c), w')).
Proof.
  intros Hp Hn.
  repeat match goal with |- _ /\ _ => split end.
  - unfold Client_Set. by_reply Hp Hn.
  - unfold Client_Add. by_reply Hp Hn.
  - unfold Client_Replace. by_reply Hp Hn.
  - unfold Client_Append. by_reply Hp Hn.
  - unfold Client_Prepend. by_reply Hp Hn.
  - unfold Client_CAS. by_reply Hp Hn.
  - unfold Client_Delete. by_reply Hp Hn.
  - unfold Client_Touch. by_reply Hp Hn.
Qed.

(** ** The value block, buffered whole *)

Lemma defaultBufSize_val : Z.of_nat defaultBufSize = 4096.
Proof. reflexivity. Qed.

Lemma ReadString_buffered (fuel : nat) (b : Reader) (j : nat) (w : World) :
  IndexByte (buffered b) LF = Some j ->
  ReadString (S fuel) b LF w
    = (Val (str_take (j + 1) (buffered b), None,
            mkReader (rd b) (str_drop (j + 1) (buffered b)) (rerr b)), w).
Proof.
  intros Hj. unfold ReadString, bind at 1. cbn [collectFragments].
  unfold bind at 1, ReadSlice. cbn [ReadSlice_loop str_drop]. rewrite Hj.
  rewrite Nat.add_0_r. reflexivity.
Qed.

Lemma str_drop_all (k : nat) :
  forall s : string, (String.length s <= k)%nat -> str_drop k s = EmptyString.
Proof.
  induction k as [|k IH]; intros [|ch s] H; simpl in *; try reflexivity; [lia|].
  apply IH. lia.
Qed.

Lemma str_take_take (n m : nat) :
  forall s : string, (n <= m)%nat -> str_take n (str_take m s ++ EmptyString) = str_take n s.
Proof.
  revert m. induction n as [|n IH]; intros m s H; [reflexivity|].
  destruct m as [|m]; [lia|]. destruct s as [|ch s]; [reflexivity|].
  simpl. rewrite IH by lia. reflexivity.
Qed.

Lemma wrap_int64_small (z : Z) : 0 <= z < 2 ^ 63 -> wrap_int64 z = z.
Proof. intros H. unfold wrap_int64. rewrite Z.mod_small by lia. lia. Qed.

(** X7. A well-formed VALUE block that arrives whole with the first read:
    [GetValue] returns, without error, exactly the [n] bytes that follow the
    header line, whatever bytes they are (line feeds and zero bytes too),
    and the CAS token when asked for one; the two bytes after the value are
    skipped unread, and the exchange costs one write and one read. *)
Theorem GetValue_whole_reply (fuel : nat) (address a key : string) (h : handle)
    (withCAS : bool) (w : World) (i j n : nat) (parts : list string) (cas : Z) :
  let s := mkServer address (mkConn a (Some h)) in
  let cmd := (if withCAS then "gets " else "get ") ++ key ++ CRLF in
  let read := [EvWrite h cmd; EvRead h defaultBufSize] in
  let d := delivered defaultBufSize (answer w read) in
  let header := str_take (i + 1) d in
  let block := str_drop (i + 1) d in
  let closing := str_drop (n + 2) block in
  out_err (answer w [EvWrite h cmd]) = None ->
  out_err (answer w read) = None ->
  IndexByte d LF = Some i ->
  TrimSpace header <> "END" ->
  Split (TrimSpace header) " " = parts ->
  (4 <= List.length parts)%nat ->
  nth 0 parts "" = "VALUE" ->
  Atoi (nth 3 parts "") = (Z.of_nat n, None) ->
  (withCAS = true ->
   (5 <= List.length parts)%nat /\ ParseUint (nth 4 parts "") = (cas, None)) ->
  (n + 2 <= String.length block)%nat ->
  IndexByte closing LF = Some j ->
  TrimSpace (str_take (j + 1) closing) = "END" ->
  Server_GetValue (S (S fuel)) s key withCAS w
    = (Val (str_take n block, if withCAS then cas else 0, None, s), after w read).
Proof.
  intros s cmd read d header block closing
    Hsent Hread Hi Hend Hparts Hlen Hvalue Hcount Hcas Hblock Hj Hclose.
  assert (Hd : delivered defaultBufSize
                 (answer (after w [EvWrite h cmd]) [EvRead h defaultBufSize]) = d)
    by (unfold d, read; rewrite answer_after; reflexivity).
  assert (Hdlen : (String.length d <= defaultBufSize)%nat).
  { unfold d, delivered. rewrite str_take_length. lia. }
  assert (Hblen : (String.length block <= defaultBufSize)%nat).
  { unfold block. rewrite str_drop_length. lia. }
  pose proof defaultBufSize_val as Hbuf.
  unfold Server_GetValue.
  replace (if withCAS then "gets " ++ key ++ CRLF else "get " ++ key ++ CRLF)
    with cmd by (unfold cmd; destruct withCAS; reflexivity).
  unfold bind at 1. cbn [server_conn s].
  rewrite (Conn_Write_cases a h w cmd), Hsent. cbv beta iota.
  unfold bind at 1.
  rewrite (ReadString_first_read fuel a h (after w [EvWrite h cmd]) i);
    [| rewrite answer_after; exact Hread | rewrite Hd; exact Hi].
  cbv beta iota. rewrite Hd, after_after. fold header block.
  apply String.eqb_neq in Hend. rewrite Hend, Hparts.
  assert (H4 : (List.length parts <? 4)%nat = false) by (apply Nat.ltb_ge; exact Hlen).
  rewrite H4, Hvalue. cbn [orb negb String.eqb Ascii.eqb Bool.eqb].
  assert (Hsize : wrap_int64 (Z.of_nat n + 2) = Z.of_nat (n + 2))
    by (rewrite wrap_int64_small; lia).
  assert (Halloc : (Z.of_nat (n + 2) <? 0) || (maxAlloc <? Z.of_nat (n + 2)) = false).
  { apply orb_false_intro; apply Z.ltb_ge; [lia|]. unfold maxAlloc. lia. }
  assert (Hp : zeros (n + 2) <> EmptyString)
    by (replace (n + 2)%nat with (S (n + 1)) by lia; discriminate).
  assert (Hb : block <> EmptyString)
    by (intros E; rewrite E in Hblock; simpl in Hblock; lia).
  pose proof (Reader_Read_buffered_only
                (mkReader (mkConn a (Some h)) block None) (zeros (n + 2))
                (after w read) Hp Hb) as Hcopy.
  cbv zeta in Hcopy. cbn [buffered rd rerr] in Hcopy.
  rewrite zeros_length, Nat.min_l in Hcopy by exact Hblock.
  rewrite (str_drop_all (n + 2) (zeros (n + 2))) in Hcopy
    by (rewrite zeros_length; lia).
  fold closing in Hcopy.
  assert (Hslice : (Z.of_nat n <? 0)
                   || (Z.of_nat (String.length (str_take (n + 2) block ++ "")) <? Z.of_nat n)
                   = false).
  { apply orb_false_intro; apply Z.ltb_ge; [lia|].
    rewrite append_length, str_take_length. simpl. lia. }
  pose proof (ReadString_buffered (S fuel)
                (mkReader (mkConn a (Some h)) closing None) j (after w read) Hj)
    as Hline.
  cbn [buffered rd rerr] in Hline.
  destruct withCAS.
  - destruct (Hcas eq_refl) as [H5 Htoken].
    assert (H5' : (List.length parts <? 5)%nat = false) by (apply Nat.ltb_ge; exact H5).
    rewrite H5', Htoken, Hcount. cbv beta iota.
    unfold bind at 1, make_bytes. rewrite Hsize, Halloc. unfold ret at 1.
    rewrite Nat2Z.id. unfold bind at 1.
    change ([EvWrite h cmd] ++ [EvRead h defaultBufSize])%list with read.
    rewrite Hcopy. cbv beta iota.
    unfold bind at 1, slice_to. rewrite Hslice. unfold ret at 1.
    unfold bind at 1. cbn [rd]. rewrite Hline. cbv beta iota.
    rewrite Hclose, Nat2Z.id, str_take_take by lia. reflexivity.
  - rewrite Hcount. cbv beta iota.
    unfold bind at 1, make_bytes. rewrite Hsize, Halloc. unfold ret at 1.
    rewrite Nat2Z.id. unfold bind at 1.
    change ([EvWrite h cmd] ++ [EvRead h defaultBufSize])%list with read.
    rewrite Hcopy. cbv beta iota.
    unfold bind at 1, slice_to. rewrite Hslice. unfold ret at 1.
    unfold bind at 1. cbn [rd]. rewrite Hline. cbv beta iota.
    rewrite Hclose, Nat2Z.id, str_take_take by lia. reflexivity.
Qed.

(** ** A header with a length that cannot be allocated *)

Lemma digits_value_nonneg (s : string) : all_digits s = true -> 0 <= digits_value s.
Proof.
  unfold all_digits, digits_value.
  assert (H : forall (l : list ascii) (acc : Z),
             0 <= acc -> forallb is_digit l = true ->
             0 <= fold_left (fun acc c => 10 * acc + (byte_of c - 48)) l acc).
  { induction l as [|ch l IH]; intros acc Hacc Hall; simpl in *; [exact Hacc|].
    apply andb_prop in Hall. destruct Hall as [Hd Hl].
    apply IH; [|exact Hl].
    unfold is_digit in Hd. apply andb_prop in Hd. destruct Hd as [Hd _].
    apply Z.leb_le in Hd. lia. }
  apply H. lia.
Qed.

(** [Atoi] answers within the range of [int]. *)
Lemma Atoi_in_int (s : string) (z : Z) :
  Atoi s = (z, None) -> minInt64 <= z <= maxInt64.
Proof.
  unfold Atoi, minInt64, maxInt64.
  set (sb := match s with
             | String "-" s' => (true, s')
             | String "+" s' => (false, s')
             | _ => (false, s)
             end).
  destruct sb as [neg body]. destruct body as [|ch body]; [discriminate|].
  destruct (all_digits (String ch body)) eqn:Hd; [|discriminate].
  pose proof (digits_value_nonneg _ Hd) as Hv.
  destruct neg.
  - destruct (Z.leb_spec (digits_value (String ch body)) (2 ^ 63)); [|discriminate].
    intros Heq. injection Heq as <-. lia.
  - destruct (Z.leb_spec (digits_value (String ch body)) (2 ^ 63 - 1)); [|discriminate].
    intros Heq. injection Heq as <-. lia.
Qed.

(** X8. A VALUE header whose length field is below -2 or above 2^48 - 2:
    [GetValue] panics in [make] after the one write and the one read that
    brought the header line; it does not return an error. *)
Theorem GetValue_length_out_of_range (fuel : nat) (address a key : string)
    (h : handle) (w : World) (i : nat) (parts : list string) (z : Z) :
  let s := mkServer address (mkConn a (Some h)) in
  let cmd := "get " ++ key ++ CRLF in
  let read := [EvWrite h cmd; EvRead h defaultBufSize] in
  let d := delivered defaultBufSize (answer w read) in
  let header := str_take (i + 1) d in
  out_err (answer w [EvWrite h cmd]) = None ->
  out_err (answer w read) = None ->
  IndexByte d LF = Some i ->
  TrimSpace header <> "END" ->
  Split (TrimSpace header) " " = parts ->
  (4 <= List.length parts)%nat ->
  nth 0 parts "" = "VALUE" ->
  Atoi (nth 3 parts "") = (z, None) ->
  z < -2 \/ maxAlloc - 2 < z ->
  Server_GetValue (S (S fuel)) s key false w
    = (Panic "makeslice: len out of range", after w read).
Proof.
  intros s cmd read d header Hsent Hread Hi Hend Hparts Hlen Hvalue Hcount Hz.
  assert (Hd : delivered defaultBufSize
                 (answer (after w [EvWrite h cmd]) [EvRead h defaultBufSize]) = d)
    by (unfold d, read; rewrite answer_after; reflexivity).
  pose proof (Atoi_in_int _ _ Hcount) as Hr. unfold minInt64, maxInt64 in Hr.
  assert (Hbad : (wrap_int64 (z + 2) <? 0) || (maxAlloc <? wrap_int64 (z + 2)) = true).
  { apply orb_true_iff. unfold wrap_int64, maxAlloc in *.
    destruct (Z_lt_le_dec (z + 2) 0) as [Hneg|Hpos].
    - left. apply Z.ltb_lt.
      replace (z + 2 + 2 ^ 63) with (z + 2 + 2 ^ 63 + 0) by lia.
      rewrite Z.mod_small by lia. lia.
    - destruct (Z_lt_le_dec (z + 2) (2 ^ 63)) as [Hin|Hout].
      + right. apply Z.ltb_lt. rewrite Z.mod_small by lia. lia.
      + left. apply Z.ltb_lt.
        replace (z + 2 + 2 ^ 63) with (z + 2 - 2 ^ 63 + 1 * 2 ^ 64) by lia.
        rewrite Z.mod_add by lia. rewrite Z.mod_small by lia. lia. }
  unfold Server_GetValue. unfold bind at 1. cbn [server_conn s].
  fold cmd. rewrite (Conn_Write_cases a h w cmd), Hsent. cbv beta iota.
  unfold bind at 1.
  rewrite (ReadString_first_read fuel a h (after w [EvWrite h cmd]) i);
    [| rewrite answer_after; exact Hread | rewrite Hd; exact Hi].
  cbv beta iota. rewrite Hd, after_after. fold header.
  apply String.eqb_neq in Hend. rewrite Hend, Hparts.
  assert (H4 : (List.length parts <? 4)%nat = false) by (apply Nat.ltb_ge; exact Hlen).
  rewrite H4, Hvalue. cbn [orb negb String.eqb Ascii.eqb Bool.eqb].
  rewrite Hcount. cbv beta iota.
  unfold bind at 1, make_bytes. rewrite Hbad. reflexivity.
Qed.

(** ** Commands keep the servers *)

Ltac split_runs :=
  repeat match goal with
         | |- context [match ?x with _ => _ end] => destruct x
         end.

Lemma WriteCommand_Address (fuel : nat) (s s' : Server) (cmd resp : string)
    (err : option error) (w w' : World) :
  Server_WriteCommand fuel s cmd w = (Val (resp, err, s'), w') ->
  Address s' = Address s.
Proof.
  unfold Server_WriteCommand, bind, ret. split_runs;
    intros H; inversion H; reflexivity.
Qed.

Lemma GetValue_Address (fuel : nat) (s s' : Server) (key value : string)
    (withCAS : bool) (cas : Z) (err : option error) (w w' : World) :
  Server_GetValue fuel s key withCAS w = (Val (value, cas, err, s'), w') ->
  Address s' = Address s.
Proof.
  unfold Server_GetValue, bind, ret, make_bytes, slice_to, panic. split_runs;
    intros H; inversion H; reflexivity.
Qed.

Lemma GetStats_Address (fuel : nat) (s s' : Server)
    (stats : option (gmap string string)) (err : option error) (w w' : World) :
  Server_GetStats fuel s w = (Val (stats, err, s'), w') ->
  Address s' = Address s.
Proof.
  unfold Server_GetStats, bind, ret. split_runs;
    intros H; inversion H; reflexivity.
Qed.

Lemma Extra_Address (fuel : nat) (s s' : Server) (cmd res : string)
    (err : option error) (w w' : World) :
  Server_Extra fuel s cmd w = (Val (res, err, s'), w') ->
  Address s' = Address s.
Proof.
  unfold Server_Extra, bind, ret. split_runs;
    intros H; inversion H; reflexivity.
Qed.

Lemma store_addresses (c : Client) (i : nat) (s s' : Server) :
  servers c !! i = Some s -> Address s' = Address s ->
  List.map Address (servers (store c i s')) = List.map Address (servers c).
Proof.
  intros Hi Ha. unfold store. cbn [servers].
  change (List.map Address) with (fmap (M := list) Address).
  rewrite list_fmap_insert. apply list_insert_id.
  rewrite list_lookup_fmap, Hi, Ha. reflexivity.
Qed.

Lemma pickServerFromAddr_lookup (c : Client) (addr : string) (i : nat) (s : Server) :
  pickServerFromAddr c addr = (Some s, i, None) -> servers c !! i = Some s.
Proof.
  unfold pickServerFromAddr. intros H.
  pose proof (pickServerFromAddr_loop_spec addr (servers c) O) as P.
  rewrite H in P. destruct P as (j & -> & Hj & _). exact Hj.
Qed.

Lemma fanout_loop_addresses (fuel : nat) (command : string) (ss : list Server) :
  forall (ss' : list Server) (err : option error) (w w' : World),
    fanout_loop fuel command ss w = (Val (err, ss'), w') ->
    List.map Address ss' = List.map Address ss.
Proof.
  induction ss as [|s ss IH]; intros ss' err w w' H.
  - inversion H. reflexivity.
  - cbn [fanout_loop] in H. unfold bind at 1 in H.
    destruct (Server_WriteCommand fuel s command w)
      as [[[[resp xerr] s1] | why | ] w1] eqn:Hx; try discriminate.
    pose proof (WriteCommand_Address _ _ _ _ _ _ _ _ Hx) as Ha.
    destruct xerr as [e|].
    + inversion H. simpl. by rewrite Ha.
    + destruct (negb (String.eqb resp "OK")).
      * inversion H. simpl. by rewrite Ha.
      * unfold bind in H.
        destruct (fanout_loop fuel command ss w1)
          as [[[err2 ss2] | why | ] w2] eqn:Hrest; try discriminate.
        inversion H. simpl. rewrite Ha. f_equal. eapply IH. exact Hrest.
Qed.

Lemma StatsAll_loop_addresses (fuel : nat) (ss : list Server) :
  forall (acc m : gmap string string) (ss' : list Server) (err : option error)
         (w w' : World),
    StatsAll_loop fuel ss acc w = (Val (m, err, ss'), w') ->
    List.map Address ss' = List.map Address ss.
Proof.
  induction ss as [|s ss IH]; intros acc m ss' err w w' H.
  - inversion H. reflexivity.
  - cbn [StatsAll_loop] in H. unfold bind at 1 in H.
    destruct (Server_GetStats fuel s w)
      as [[[[stats xerr] s1] | why | ] w1] eqn:Hx; try discriminate.
    pose proof (GetStats_Address _ _ _ _ _ _ _ Hx) as Ha.
    destruct xerr as [e|].
    + inversion H. simpl. by rewrite Ha.
    + unfold bind in H.
      destruct (StatsAll_loop fuel ss (merge_range acc (entries_of stats)) w1)
        as [[[[m2 err2] ss2] | why | ] w2] eqn:Hrest; try discriminate.
      inversion H. simpl. rewrite Ha. f_equal. eapply IH. exact Hrest.
Qed.

Lemma Versions_loop_addresses (fuel : nat) (ss : list Server) :
  forall (acc : gmap string string) (m : option (gmap string string))
         (ss' : list Server) (err : option error) (w w' : World),
    Versions_loop fuel ss acc w = (Val (m, err, ss'), w') ->
    List.map Address ss' = List.map Address ss.
Proof.
  induction ss as [|s ss IH]; intros acc m ss' err w w' H.
  - inversion H. reflexivity.
  - cbn [Versions_loop] in H. unfold bind at 1 in H.
    destruct (Server_WriteCommand fuel s ("version" ++ CRLF) w)
      as [[[[resp xerr] s1] | why | ] w1] eqn:Hx; try discriminate.
    pose proof (WriteCommand_Address _ _ _ _ _ _ _ _ Hx) as Ha.
    destruct xerr as [e|].
    + inversion H. simpl. by rewrite Ha.
    + unfold bind in H.
      destruct (Versions_loop fuel ss (<[Address s1 := TrimSpace resp]> acc) w1)
        as [[[[m2 err2] ss2] | why | ] w2] eqn:Hrest; try discriminate.
      inversion H. simpl. rewrite Ha. f_equal. eapply IH. exact Hrest.
Qed.

(** Closes a goal whose premise says that a panic is a returned value. *)
Ltac not_returned := let H := fresh "H" in intros H; discriminate H.

Ltac returned_as_is := let H := fresh "H" in intros H; inversion H; reflexivity.

Ltac stored_back lookup :=
  split_runs; (let H := fresh "H" in intros H; inversion H; subst);
  (eapply store_addresses; [eapply lookup; eassumption | assumption]).

(** A command that routes by key and makes one exchange. *)
Ltac keeps_by_key :=
  let Hp := fresh "Hp" in
  let Hx := fresh "Hx" in
  let Ha := fresh "Ha" in
  intros c c' w w' r; unfold bind at 1, lift;
  destruct (pickServer c _) as [[[i s]|e]|why|] eqn:Hp; cbv beta iota;
  try not_returned;
  first
    [ returned_as_is
    | unfold bind, ret;
      match goal with
      | |- context [Server_WriteCommand ?f ?s ?cmd ?w] =>
          destruct (Server_WriteCommand f s cmd w)
            as [[[[resp xerr] s1] | why | ] w1] eqn:Hx; try not_returned;
          pose proof (WriteCommand_Address _ _ _ _ _ _ _ _ Hx) as Ha
      | |- context [Server_GetValue ?f ?s ?k ?b ?w] =>
          destruct (Server_GetValue f s k b w)
            as [[[[[val1 tok1] xerr] s1] | why | ] w1] eqn:Hx; try not_returned;
          pose proof (GetValue_Address _ _ _ _ _ _ _ _ _ _ Hx) as Ha
      end;
      stored_back pickServer_lookup ].

(** A command that finds its server by address. *)
Ltac keeps_by_address :=
  let Hp := fresh "Hp" in
  let Hx := fresh "Hx" in
  let Ha := fresh "Ha" in
  intros c c' w w' r;
  destruct (pickServerFromAddr c _) as [[[s|] i] [e|]] eqn:Hp;
  try not_returned;
  first
    [ returned_as_is
    | unfold bind, ret;
      match goal with
      | |- context [Server_WriteCommand ?f ?s ?cmd ?w] =>
          destruct (Server_WriteCommand f s cmd w)
            as [[[[resp xerr] s1] | why | ] w1] eqn:Hx; try not_returned;
          pose proof (WriteCommand_Address _ _ _ _ _ _ _ _ Hx) as Ha
      | |- context [Server_GetStats ?f ?s ?w] =>
          destruct (Server_GetStats f s w)
            as [[[[stats xerr] s1] | why | ] w1] eqn:Hx; try not_returned;
          pose proof (GetStats_Address _ _ _ _ _ _ _ Hx) as Ha
      | |- context [Server_Extra ?f ?s ?cmd ?w] =>
          destruct (Server_Extra f s cmd w)
            as [[[[res1 xerr] s1] | why | ] w1] eqn:Hx; try not_returned;
          pose proof (Extra_Address _ _ _ _ _ _ _ _ Hx) as Ha
      end;
      stored_back pickServerFromAddr_lookup ].

(** X9. Every command but [Quit] and [QuitAll] keeps the servers: whenever
    it returns, with or without error and whatever the network did, the
    client has the same number of servers with the same addresses in the
    same order, so every key is still routed to the same index. *)
Theorem commands_keep_servers (fuel : nat) (key value addr cmd : string)
    (n cas : Z) :
  keeps_servers (fun c => Client_Set fuel c key value n)
  /\ keeps_servers (fun c => Client_Add fuel c key value n)
  /\ keeps_servers (fun c => Client_Replace fuel c key value n)
  /\ keeps_servers (fun c => Client_Append fuel c key value)
  /\ keeps_servers (fun c => Client_Prepend fuel c key value)
  /\ keeps_servers (fun c => Client_CAS fuel c key value n cas)
  /\ keeps_servers (fun c => Client_Delete fuel c key)
  /\ keeps_servers (fun c => Client_Touch fuel c key n)
  /\ keeps_servers (fun c => Client_Get fuel c key)
  /\ keeps_servers (fun c => Client_Gets fuel c key)
  /\ keeps_servers (fun c => Client_Increment fuel c key n)
  /\ keeps_servers (fun c => Client_Decrement fuel c key n)
  /\ keeps_servers (fun c => Client_FlushAll fuel c n)
  /\ keeps_servers (fun c => Client_Verbosity fuel c n)
  /\ keeps_servers (fun c => Client_StatsAll fuel c)
  /\ keeps_servers (fun c => Client_Stats fuel c addr)
  /\ keeps_servers (fun c => Client_Version fuel c addr)
  /\ keeps_servers (fun c => Client_Versions fuel c)
  /\ keeps_servers (fun c => Client_Extra fuel c addr cmd).
Proof.
  unfold keeps_servers.
  repeat match goal with |- _ /\ _ => split end.
  - unfold Client_Set. keeps_by_key.
  - unfold Client_Add. keeps_by_key.
  - unfold Client_Replace. keeps_by_key.
  - unfold Client_Append. keeps_by_key.
  - unfold Client_Prepend. keeps_by_key.
  - unfold Client_CAS. keeps_by_key.
  - unfold Client_Delete. keeps_by_key.
  - unfold Client_Touch. keeps_by_key.
  - unfold Client_Get. keeps_by_key.
  - unfold Client_Gets. keeps_by_key.
  - unfold Client_Increment, arith. keeps_by_key.
  - unfold Client_Decrement, arith. keeps_by_key.
  - intros c c' w w' r H. unfold Client_FlushAll, bind in H.
    destruct (fanout_loop _ _ _ _) as [[[err ss] | why | ] w1] eqn:Hl; try discriminate.
    inversion H. subst. eapply fanout_loop_addresses. exact Hl.
  - intros c c' w w' r H. unfold Client_Verbosity, bind in H.
    destruct (fanout_loop _ _ _ _) as [[[err ss] | why | ] w1] eqn:Hl; try discriminate.
    inversion H. subst. eapply fanout_loop_addresses. exact Hl.
  - intros c c' w w' r H. unfold Client_StatsAll, bind in H.
    destruct (StatsAll_loop _ _ _ _) as [[[[m err] ss] | why | ] w1] eqn:Hl;
      try discriminate.
    inversion H. subst. eapply StatsAll_loop_addresses. exact Hl.
  - unfold Client_Stats. keeps_by_address.
  - unfold Client_Version. keeps_by_address.
  - intros c c' w w' r H. unfold Client_Versions, bind in H.
    destruct (Versions_loop _ _ _ _) as [[[[m err] ss] | why | ] w1] eqn:Hl;
      try discriminate.
    inversion H. subst. eapply Versions_loop_addresses. exact Hl.
  - unfold Client_Extra. keeps_by_address.
Qed.

Lemma same_addresses_same_route (c c' : Client) (key : string) (i : nat) (s : Server) :
  List.map Address (servers c') = List.map Address (servers c) ->
  pickServer c key = Val (inl (i, s)) ->
  exists s' : Server,
    pickServer c' key = Val (inl (i, s')) /\ Address s' = Address s.
Proof.
  intros Ha Hp.
  assert (Hlen : List.length (servers c') = List.length (servers c)).
  { rewrite <- (length_map Address (servers c')), Ha. apply length_map. }
  pose proof (pickServer_lookup c key i s Hp) as Hi.
  assert (Hi' : exists s', servers c' !! i = Some s' /\ Address s' = Address s).
  { assert (H : (Address <$> servers c') !! i = Some (Address s)).
    { change (fmap Address (servers c')) with (List.map Address (servers c')).
      rewrite Ha. change (List.map Address (servers c)) with (Address <$> servers c).
      rewrite list_lookup_fmap, Hi. reflexivity. }
    rewrite list_lookup_fmap in H.
    destruct (servers c' !! i) as [s'|]; [|discriminate].
    exists s'. split; [reflexivity|]. simpl in H. congruence. }
  destruct Hi' as (s' & Hs' & Has'). exists s'. split; [|exact Has'].
  revert Hp. unfold pickServer. rewrite Hlen.
  destruct (List.length (servers c) =? 0)%nat; [discriminate|].
  unfold index_servers.
  destruct (Z.rem _ _ <? 0); [discriminate|].
  destruct (servers c !! Z.to_nat _) as [s0|] eqn:E; [|discriminate].
  intros H. injection H as Hidx _. rewrite Hidx, Hs'. reflexivity.
Qed.

(** ** A server that lost its socket *)

Lemma pickServer_store (c : Client) (key : string) (i : nat) (s s' : Server) :
  pickServer c key = Val (inl (i, s)) ->
  pickServer (store c i s') key = Val (inl (i, s')).
Proof.
  intros Hp. pose proof (pickServer_lookup c key i s Hp) as Hi.
  assert (Hlt : (i < List.length (servers c))%nat)
    by (eapply lookup_lt_Some; exact Hi).
  revert Hp. unfold pickServer, store. cbn [servers]. rewrite length_insert.
  destruct (List.length (servers c) =? 0)%nat; [discriminate|].
  unfold index_servers. cbn [servers].
  destruct (Z.rem _ _ <? 0); [discriminate|].
  destruct (servers c !! Z.to_nat _) as [s0|] eqn:E; [|discriminate].
  intros H. injection H as Hidx _. rewrite Hidx.
  rewrite list_lookup_insert_eq by exact Hlt. reflexivity.
Qed.

(** X10. A command whose write fails and whose redial is refused returns
    the dial's error, wrapped twice in [ErrWriteFailed], and leaves the key's
    server without a socket.  From then on [Get] and [Set] of that key do
    not return an error: they panic with a nil dereference before any
    socket call, in every world and for every fuel. *)
Theorem refused_redial_poisons_server (fuel : nat) (c : Client)
    (key value address a : string) (n : Z) (h : handle) (i : nat) (w : World)
    (broke msg : string) :
  let cmd := "set " ++ key ++ " 0 " ++ fmt_d n ++ " " ++ fmt_d (len value)
               ++ CRLF ++ value ++ CRLF in
  let lost := [EvWrite h cmd; EvClose h; EvDial a] in
  let c' := store c i (mkServer address (mkConn a None)) in
  pickServer c key = Val (inl (i, mkServer address (mkConn a (Some h)))) ->
  out_err (answer w [EvWrite h cmd]) = Some broke ->
  out_err (answer w lost) = Some msg ->
  Client_Set fuel c key value n w
    = (Val (Some (Join ErrWriteFailed (Join ErrWriteFailed (NetError msg))), c'),
       after w lost)
  /\ forall (fuel' : nat) (value' : string) (n' : Z) (w' : World),
       Client_Get fuel' c' key w' = (Panic nil_deref, w')
       /\ Client_Set fuel' c' key value' n' w' = (Panic nil_deref, w').
Proof.
  intros cmd lost c' Hp Hbroke Hmsg. split.
  - unfold Client_Set, bind at 1, lift. rewrite Hp. cbv beta iota.
    fold cmd. unfold bind, Server_WriteCommand, bind. cbn [server_conn Address].
    rewrite (Conn_Write_cases a h w cmd), Hbroke. fold lost. rewrite Hmsg.
    reflexivity.
  - intros fuel' value' n' w'.
    pose proof (pickServer_store c key i _ (mkServer address (mkConn a None)) Hp)
      as Hp'.
    fold c' in Hp'. split.
    + unfold Client_Get, bind at 1, lift. rewrite Hp'. reflexivity.
    + unfold Client_Set, bind at 1, lift. rewrite Hp'. reflexivity.
Qed.

(** ** Versions *)

Lemma Versions_loop_answered (fuel : nat) (ss ss' : list Server) (w w' : World)
    (replies : list string) :
  answered fuel ("version" ++ CRLF) ss w replies ss' w' ->
  forall acc : gmap string string,
  exists m : gmap string string,
    Versions_loop fuel ss acc w = (Val (Some m, None, ss'), w')
    /\ forall a : string,
         m !! a = match last_version a ss replies with
                  | Some v => Some v
                  | None => acc !! a
                  end.
Proof.
  induction 1 as [w|s s' ss ss' w w1 w2 resp replies Hs _ IH]; intros acc.
  - exists acc. split; reflexivity.
  - pose proof (WriteCommand_Address _ _ _ _ _ _ _ _ Hs) as Ha.
    destruct (IH (<[Address s' := TrimSpace resp]> acc)) as (m & Hm & Hk).
    exists m. split.
    + cbn [Versions_loop]. unfold bind at 1. rewrite Hs. cbv beta iota.
      unfold bind. rewrite Hm. reflexivity.
    + intros a0. rewrite Hk. cbn [last_version].
      destruct (last_version a0 ss replies); [reflexivity|].
      rewrite Ha. destruct (String.eqb_spec (Address s) a0) as [->|Hne].
      * apply lookup_insert_eq.
      * apply lookup_insert_ne. exact Hne.
Qed.

Lemma Versions_loop_abort (fuel : nat) (pre pre' post : list Server) (s s' : Server)
    (w w1 w2 : World) (replies : list string) (resp : string) (e : error) :
  answered fuel ("version" ++ CRLF) pre w replies pre' w1 ->
  Server_WriteCommand fuel s ("version" ++ CRLF) w1 = (Val (resp, Some e, s'), w2) ->
  forall acc : gmap string string,
    Versions_loop fuel (pre ++ s :: post)%list acc w
      = (Val (None, Some (Join ErrWriteFailed e), (pre' ++ s' :: post)%list), w2).
Proof.
  intros Hpre Hs.
  induction Hpre as [w|s0 s0' ss ss' w w0 w1 resp0 replies Hs0 _ IH]; intros acc.
  - simpl. unfold bind. rewrite Hs. reflexivity.
  - simpl. unfold bind at 1. rewrite Hs0. cbv beta iota.
    unfold bind. rewrite (IH Hs). reflexivity.
Qed.

(** X11. [Versions], when every exchange succeeds, returns a map from
    address to trimmed reply line in which, of several servers with one
    address, the last in the slice wins (the opposite of [StatsAll]).  When
    an exchange fails, it stops there and returns the nil map, not the
    versions gathered so far, with the error wrapped in [ErrWriteFailed]. *)
Theorem Versions_last_writer_wins (fuel : nat) (pre pre' post : list Server)
    (w w1 : World) (replies : list string) :
  answered fuel ("version" ++ CRLF) pre w replies pre' w1 ->
  (exists m : gmap string string,
      Client_Versions fuel (mkClient pre) w = (Val (Some m, None, mkClient pre'), w1)
      /\ forall a : string, m !! a = last_version a pre replies)
  /\ forall (s s' : Server) (resp : string) (e : error) (w2 : World),
       Server_WriteCommand fuel s ("version" ++ CRLF) w1
         = (Val (resp, Some e, s'), w2) ->
       Client_Versions fuel (mkClient (pre ++ s :: post)%list) w
         = (Val (None, Some (Join ErrWriteFailed e),
                 mkClient (pre' ++ s' :: post)%list), w2).
Proof.
  intros Hpre. split.
  - destruct (Versions_loop_answered fuel pre pre' w w1 replies Hpre ∅)
      as (m & Hm & Hk).
    exists m. split.
    + unfold Client_Versions, bind. cbn [servers]. rewrite Hm. reflexivity.
    + intros a0. rewrite Hk. destruct (last_version a0 pre replies); [reflexivity|].
      apply lookup_empty.
  - intros s s' resp e w2 Hs.
    unfold Client_Versions, bind. cbn [servers].
    rewrite (Versions_loop_abort fuel pre pre' post s s' w w1 w2 replies resp e Hpre Hs).
    reflexivity.
Qed.

(** ** Replies of several lines *)

Lemma str_append_assoc (x y z : string) : (x ++ y) ++ z = x ++ (y ++ z).
Proof.
  induction x as [|ch x IH]; [reflexivity|].
  change (String ch ((x ++ y) ++ z) = String ch (x ++ (y ++ z))). f_equal. exact IH.
Qed.

Lemma str_append_nil (x : string) : x ++ EmptyString = x.
Proof.
  induction x as [|ch x IH]; [reflexivity|].
  change (String ch (x ++ EmptyString) = String ch x). f_equal. exact IH.
Qed.

Lemma cut_append (sep : ascii) (v : string) :
  forall k : string,
    IndexByte k sep = None -> cut (k ++ String sep v) sep = Some (k, v).
Proof.
  induction k as [|ch k IH]; simpl.
  - intros _. rewrite Ascii.eqb_refl. reflexivity.
  - destruct (Ascii.eqb ch sep); [discriminate|].
    destruct (IndexByte k sep); [discriminate|].
    intros _. rewrite IH by reflexivity. reflexivity.
Qed.

Lemma SplitN_stat_line (k v : string) :
  IndexByte k " " = None ->
  SplitN ("STAT " ++ k ++ " " ++ v) " " 3 = ["STAT"; k; v].
Proof.
  intros Hk.
  change (SplitN ("STAT " ++ k ++ " " ++ v) " " 3)
    with ("STAT" :: match cut (k ++ String " " v) " " with
                    | Some (a, b) => [a; b]
                    | None => [k ++ String " " v]
                    end).
  rewrite (cut_append " " v k Hk). reflexivity.
Qed.

Lemma tally_fold (kvs : list (string * string)) :
  fold_left add_stat kvs None = tally kvs.
Proof.
  induction kvs as [|kv kvs IH] using rev_ind; [reflexivity|].
  rewrite fold_left_app. cbn [fold_left]. rewrite IH.
  unfold tally. rewrite rev_app_distr. cbn [rev app].
  destruct (kvs ++ [kv])%list eqn:E; [destruct kvs; discriminate|].
  unfold add_stat. destruct kv as [k v]. cbn [fst snd list_to_map foldr uncurry].
  destruct kvs as [|kv0 kvs0]; [reflexivity|]. reflexivity.
Qed.

Lemma GetStats_loop_lines (fuel : nat) (b b1 : Reader) (w w1 : World)
    (ls : list string) :
  read_lines fuel b w ls b1 w1 ->
  forall (kvs : list (string * string)) (acc : option (gmap string string)),
    Forall2 stat_line ls kvs ->
    GetStats_loop fuel b acc w
      = GetStats_loop (fuel - List.length ls) b1 (fold_left add_stat kvs acc) w1.
Proof.
  induction 1 as [fuel b w|fuel b b1 b' w w1 w' line ls Hr _ IH]; intros kvs acc Hkvs.
  - apply Forall2_nil_inv_l in Hkvs. subst kvs. simpl. rewrite Nat.sub_0_r. reflexivity.
  - apply Forall2_cons_inv_l in Hkvs. destruct Hkvs as (kv & kvs' & [Hline Hk] & Hrest & ->).
    cbn [GetStats_loop]. unfold bind at 1. rewrite Hr. cbv beta iota.
    rewrite Hline, (SplitN_stat_line _ _ Hk).
    cbn [List.length Nat.ltb Nat.leb negb nth String.eqb Ascii.eqb Bool.eqb].
    change (String.eqb ("STAT " ++ fst kv ++ " " ++ snd kv) "END") with false.
    cbv iota. rewrite (IH kvs' _ Hrest). reflexivity.
Qed.

Lemma Extra_loop_lines (fuel : nat) (b b1 : Reader) (w w1 : World)
    (ls : list string) :
  read_lines fuel b w ls b1 w1 ->
  Forall (fun l => TrimSpace l <> "END") ls ->
  forall res : string,
    Extra_loop fuel b res w
      = Extra_loop (fuel - List.length ls) b1 (res ++ transcript ls) w1.
Proof.
  induction 1 as [fuel b w|fuel b b1 b' w w1 w' line ls Hr _ IH]; intros Hls res.
  - cbn [List.length transcript fold_right].
    rewrite Nat.sub_0_r, str_append_nil. reflexivity.
  - apply Forall_cons in Hls. destruct Hls as [Hline Hrest].
    cbn [Extra_loop]. unfold bind at 1. rewrite Hr. cbv beta iota.
    apply String.eqb_neq in Hline. rewrite Hline.
    rewrite (IH Hrest). cbn [transcript fold_right List.length Nat.sub].
    rewrite !str_append_assoc. reflexivity.
Qed.

(** X12. [GetStats], once the command is written and the lines of
    statistics are read: at the END line it returns the map of the lines,
    where a value keeps its inner spaces, the later of two lines with one
    key wins, and no line at all gives the nil map.  A line that is no
    statistic, or a failed read, gives the nil map with the error: the
    statistics read so far are dropped. *)
Theorem GetStats_tallies_lines (fuel : nat) (address a : string) (h : handle)
    (w w1 w' : World) (b1 b' : Reader) (ls : list string)
    (kvs : list (string * string)) (last : string) (err : option error) :
  let s := mkServer address (mkConn a (Some h)) in
  let s' := mkServer address (rd b') in
  let sent := [EvWrite h ("stats" ++ CRLF)] in
  out_err (answer w sent) = None ->
  read_lines fuel (NewReader (mkConn a (Some h))) (after w sent) ls b1 w1 ->
  Forall2 stat_line ls kvs ->
  (List.length ls < fuel)%nat ->
  ReadString (fuel - List.length ls) b1 LF w1 = (Val (last, err, b'), w') ->
  (err = None -> TrimSpace last = "END" ->
   Server_GetStats fuel s w = (Val (tally kvs, None, s'), w'))
  /\ (err = None -> malformed last ->
      Server_GetStats fuel s w = (Val (None, Some ErrUnexpectedResponse, s'), w'))
  /\ (forall e : error, err = Some e ->
      Server_GetStats fuel s w = (Val (None, Some (Join ErrReadFailed e), s'), w')).
Proof.
  intros s s' sent Hsent Hls Hkvs Hfuel Hlast.
  assert (Hrun : Server_GetStats fuel s w
                 = (let* (stats, err, reader) :=
                      GetStats_loop (fuel - List.length ls) b1
                        (fold_left add_stat kvs None) in
                    ret (stats, err, mkServer address (rd reader))) w1).
  { unfold Server_GetStats, bind at 1. cbn [server_conn s Address].
    rewrite (Conn_Write_cases a h w ("stats" ++ CRLF)). fold sent. rewrite Hsent.
    cbv beta iota. unfold bind.
    rewrite (GetStats_loop_lines fuel _ b1 _ w1 ls Hls kvs None Hkvs). reflexivity. }
  rewrite !Hrun. clear Hrun.
  destruct (fuel - List.length ls)%nat as [|k] eqn:Ek; [lia|].
  unfold bind. cbn [GetStats_loop]. unfold bind. rewrite Hlast, tally_fold.
  split; [|split].
  - intros -> Hend. rewrite Hend. reflexivity.
  - intros -> [Hend Hbad]. apply String.eqb_neq in Hend. rewrite Hend.
    destruct Hbad as [Hshort|Hhead].
    + apply Nat.ltb_lt in Hshort. rewrite Hshort. reflexivity.
    + apply String.eqb_neq in Hhead. rewrite Hhead.
      destruct (List.length _ <? 3)%nat; reflexivity.
  - intros e ->. reflexivity.
Qed.

(** X13. [Extra], once the command is written and the lines before the
    END line are read: it returns these lines, each trimmed and ended by a
    line feed, in the order read.  When the read after them fails it
    returns the same text together with the error, unlike [GetStats]. *)
Theorem Extra_collects_lines (fuel : nat) (address a cmd : string) (h : handle)
    (w w1 w' : World) (b1 b' : Reader) (ls : list string)
    (last : string) (err : option error) :
  let s := mkServer address (mkConn a (Some h)) in
  let s' := mkServer address (rd b') in
  out_err (answer w [EvWrite h cmd]) = None ->
  read_lines fuel (NewReader (mkConn a (Some h))) (after w [EvWrite h cmd]) ls b1 w1 ->
  Forall (fun l => TrimSpace l <> "END") ls ->
  (List.length ls < fuel)%nat ->
  ReadString (fuel - List.length ls) b1 LF w1 = (Val (last, err, b'), w') ->
  (err = None -> TrimSpace last = "END" ->
   Server_Extra fuel s cmd w = (Val (transcript ls, None, s'), w'))
  /\ (forall e : error, err = Some e ->
      Server_Extra fuel s cmd w
        = (Val (transcript ls, Some (Join ErrReadFailed e), s'), w')).
Proof.
  intros s s' Hsent Hls Hnot Hfuel Hlast.
  assert (Hrun : Server_Extra fuel s cmd w
                 = (let* (res, err, reader) :=
                      Extra_loop (fuel - List.length ls) b1 (transcript ls) in
                    ret (res, err, mkServer address (rd reader))) w1).
  { unfold Server_Extra, bind at 1. cbn [server_conn s Address].
    rewrite (Conn_Write_cases a h w cmd), Hsent.
    cbv beta iota. unfold bind.
    rewrite (Extra_loop_lines fuel _ b1 _ w1 ls Hls Hnot EmptyString). reflexivity. }
  rewrite !Hrun. clear Hrun.
  destruct (fuel - List.length ls)%nat as [|k] eqn:Ek; [lia|].
  unfold bind. cbn [Extra_loop]. unfold bind. rewrite Hlast.
  split.
  - intros -> Hend. rewrite Hend. reflexivity.
  - intros e ->. reflexivity.
Qed.

(** ** Construction, and leaving again *)

Lemma NewClient_loop_dialed (addresses : list string) :
  forall (acc : list Server) (w w' : World) (c : Client),
    NewClient_loop addresses acc w = (Val (inl c), w') ->
    servers c = (acc ++ dialed (List.length (log w)) addresses)%list
    /\ w' = after w (List.map EvDial addresses).
Proof.
  induction addresses as [|a rest IH]; intros acc w w' c.
  - simpl. intros H. injection H as <- <-. simpl.
    rewrite app_nil_r, after_nil. split; reflexivity.
  - cbn [NewClient_loop]. unfold bind. rewrite NewServer_eq.
    destruct (out_err (answer w [EvDial a])); [discriminate|].
    intros H. apply IH in H. destruct H as [Hs Hw]. split.
    + rewrite Hs, <- app_assoc. cbn [dialed app after log].
      rewrite length_app. cbn [List.length].
      replace (List.length (log w) + 1)%nat with (S (List.length (log w))) by lia.
      reflexivity.
    + rewrite Hw, after_after. reflexivity.
Qed.

Lemma dialed_connected (addresses : list string) :
  forall h : handle,
    connected (dialed h addresses)
    /\ streams (dialed h addresses) = seq h (List.length addresses)
    /\ List.map Address (dialed h addresses) = addresses.
Proof.
  induction addresses as [|a rest IH]; intros h.
  - split; [constructor|split; reflexivity].
  - destruct (IH (S h)) as (Hc & Hs & Ha). split; [|split].
    + constructor; [discriminate|exact Hc].
    + unfold streams in *. cbn [dialed omap list_omap server_conn conn List.length seq].
      rewrite Hs. reflexivity.
    + cbn [dialed List.map Address]. rewrite Ha. reflexivity.
Qed.

(** X14. The client that [NewClient] returns has, for the i-th address,
    a server named by the address whose connection is to that address and
    holds the stream of the i-th dial.  [QuitAll] on it closes exactly the
    streams that were dialed, each once and in the order of the addresses. *)
Theorem NewClient_then_QuitAll (addresses : list string) (c : Client)
    (w w' : World) :
  NewClient addresses w = (Val (inl c), w') ->
  let first := List.length (log w) in
  servers c = dialed first addresses
  /\ Client_QuitAll c w'
     = (Val (None, mkClient []),
        after w (List.map EvDial addresses
                 ++ List.map EvClose (seq first (List.length addresses)))%list).
Proof.
  intros Hnew first. unfold NewClient in Hnew.
  destruct (List.length addresses =? 0)%nat; [discriminate|].
  apply NewClient_loop_dialed in Hnew. destruct Hnew as [Hs Hw].
  cbn [app] in Hs. fold first in Hs. split; [exact Hs|].
  destruct (dialed_connected addresses first) as (Hc & Hst & _).
  unfold Client_QuitAll, bind.
  rewrite Hs, (QuitAll_loop_closes _ Hc w'), Hst, Hw, after_after. reflexivity.
Qed.

(** X15. When the k-th address is the first that cannot be dialed,
    [NewClient] returns that dial's error and no client; it has dialed the
    addresses up to the k-th, in order, and made no other socket call: the
    streams of the addresses before the k-th are not closed. *)
Theorem NewClient_failure_closes_nothing (addresses : list string) (k : nat)
    (msg : string) (w : World) :
  (forall i : nat, (i < k)%nat -> dialable w addresses i) ->
  (k < List.length addresses)%nat ->
  out_err (answer w (List.map EvDial (take (S k) addresses))) = Some msg ->
  NewClient addresses w
    = (Val (inr (NetError msg)), after w (List.map EvDial (take (S k) addresses))).
Proof.
  intros Hbefore Hk Hfail.
  unfold NewClient. destruct addresses as [|a rest]; [simpl in Hk; lia|].
  cbn [List.length Nat.eqb].
  destruct (NewClient_loop_spec (a :: rest) [] w)
    as [(msg' & k' & Hk' & Hbefore' & Hfail' & Hrun) | (Hall & _)].
  - destruct (Nat.lt_trichotomy k k') as [Hlt|[Heq|Hgt]].
    + specialize (Hbefore' k Hlt). unfold dialable in Hbefore'. congruence.
    + subst k'. rewrite Hrun. congruence.
    + specialize (Hbefore k' Hgt). unfold dialable in Hbefore. congruence.
  - specialize (Hall k Hk). unfold dialable in Hall. congruence.
Qed.

(** ** Instances of the further properties *)

(** An address that none of three servers has. *)
Lemma unknown_address_not_found_witness :
  let c := mkClient three in
  let w := world_of [] in
  unknown "d:11211" (servers c)
  /\ Client_Version 4 c "d:11211" w = (Val (EmptyString, Some ErrNotFound, c), w)
  /\ Client_Quit c "d:11211" w = (Val (Some ErrNotFound, c), w).
Proof.
  intros c w.
  assert (Hu : unknown "d:11211" (servers c)).
  { unfold unknown. repeat (constructor; [cbv; discriminate|]). constructor. }
  pose proof (unknown_address_not_found 4 c "d:11211" "stats" w Hu) as H.
  exact (conj Hu (conj (proj1 (proj2 H)) (proj2 (proj2 (proj2 H))))).
Defined.

(** Two servers with the address b:11211: [Quit] takes the first. *)
Lemma Quit_removes_first_match_witness :
  let w := world_of [ok_n 0] in
  Client_Quit
    (mkClient [node 0 "a:11211"; node 1 "b:11211"; node 2 "c:11211"; node 3 "b:11211"])
    "b:11211" w
  = (Val (None, mkClient [node 0 "a:11211"; node 2 "c:11211"; node 3 "b:11211"]),
     after w [EvClose 1%nat]).
Proof.
  intros w.
  assert (Hu : unknown (Address (node 1 "b:11211")) [node 0 "a:11211"]).
  { unfold unknown. repeat (constructor; [cbv; discriminate|]). constructor. }
  exact (proj1 (Quit_removes_first_match [node 0 "a:11211"]
                  [node 2 "c:11211"; node 3 "b:11211"] (node 1 "b:11211") 1%nat w
                  Hu eq_refl)).
Defined.

Lemma QuitAll_closes_every_stream_witness :
  let w := world_of [ok_n 0; ok_n 0; ok_n 0] in
  connected three
  /\ Client_QuitAll (mkClient three) w
     = (Val (None, mkClient []),
        after w [EvClose 0%nat; EvClose 1%nat; EvClose 2%nat]).
Proof.
  intros w.
  assert (Hc : connected (servers (mkClient three))).
  { unfold connected. repeat (constructor; [cbv; discriminate|]). constructor. }
  exact (conj Hc (QuitAll_closes_every_stream (mkClient three) w Hc)).
Defined.

(** [Delete] of a key that is not there; the reply comes in two pieces. *)
Lemma storage_commands_by_reply_witness :
  let w := world_of [ok_n 10; ok_data "NOT_"; ok_data ("FOUND" ++ CRLF)] in
  let cmd := "delete k" ++ CRLF in
  let w' := after w [EvWrite 0%nat cmd; EvRead 0%nat 4096; EvRead 0%nat 4092] in
  exchanged 0%nat 2 w cmd ("NOT_FOUND" ++ CRLF) EmptyString w'
  /\ Client_Delete 4 single "k" w = (Val (Some ErrStoreFailed, single), w').
Proof.
  intros w cmd w'.
  assert (Hp : pickServer single "k"
               = Val (inl (O, mkServer "cache:11211" (mkConn "cache:11211" (Some O)))))
    by (vm_compute; reflexivity).
  assert (Hx : exchanged 0%nat 2 w cmd ("NOT_FOUND" ++ CRLF) EmptyString w').
  { split; [reflexivity|].
    assert (H1 : (String.length EmptyString < defaultBufSize)%nat)
      by (apply Nat.ltb_lt; reflexivity).
    assert (H2 : (String.length "NOT_" < defaultBufSize)%nat)
      by (apply Nat.ltb_lt; reflexivity).
    apply (fed_more 0%nat 1 (after w [EvWrite 0%nat cmd]) w' EmptyString
             ("NOT_FOUND" ++ CRLF) EmptyString H1);
      [reflexivity | discriminate | reflexivity |].
    exact (fed_last 0%nat (after w [EvWrite 0%nat cmd; EvRead 0%nat 4096]) "NOT_" 6
             H2 eq_refl eq_refl). }
  refine (conj Hx _).
  exact (proj1 (proj2 (proj2 (proj2 (proj2 (proj2 (proj2
           (storage_commands_by_reply 4 2 single "k" "" "cache:11211" "cache:11211"
              0 0 0%nat O w w' ("NOT_FOUND" ++ CRLF) EmptyString Hp
              (proj1 (Nat.ltb_lt 2 4) eq_refl)))))))) Hx).
Defined.

(** A value of three bytes with a line feed in it, and its CAS token. *)
Lemma GetValue_whole_reply_witness :
  let value := "a" ++ String LF "b" in
  let w := world_of [ok_n 8;
                     ok_data ("VALUE k 0 3 42" ++ CRLF ++ value ++ CRLF ++ "END" ++ CRLF)] in
  Server_GetValue 4 cache "k" true w
  = (Val (value, 42, None, cache),
     after w [EvWrite 0%nat ("gets k" ++ CRLF); EvRead 0%nat 4096]).
Proof.
  intros value w.
  refine (GetValue_whole_reply 2 "cache:11211" "cache:11211" "k" 0%nat true w
            15 4 3 ["VALUE"; "k"; "0"; "3"; "42"] 42
            eq_refl eq_refl eq_refl _ eq_refl _ eq_refl eq_refl _ _ eq_refl eq_refl).
  - vm_compute. discriminate.
  - vm_compute. apply le_S, le_n.
  - intros _. split; [vm_compute; apply le_n | reflexivity].
  - apply Nat.leb_le. reflexivity.
Defined.

(** A header with the length -5. *)
Lemma GetValue_length_out_of_range_witness :
  let w := world_of [ok_n 7; ok_data ("VALUE k 0 -5" ++ CRLF)] in
  Server_GetValue 4 cache "k" false w
  = (Panic "makeslice: len out of range",
     after w [EvWrite 0%nat ("get k" ++ CRLF); EvRead 0%nat 4096]).
Proof.
  intros w.
  refine (GetValue_length_out_of_range 2 "cache:11211" "cache:11211" "k" 0%nat w
            13 ["VALUE"; "k"; "0"; "-5"] (-5)
            eq_refl eq_refl eq_refl _ eq_refl _ eq_refl eq_refl _).
  - vm_compute. discriminate.
  - vm_compute. apply le_n.
  - left. reflexivity.
Defined.

(** The write fails, the redial is refused; the next [Get] panics. *)
Lemma refused_redial_poisons_server_witness :
  let cmd := "set k 0 0 1" ++ CRLF ++ "v" ++ CRLF in
  let lost := [EvWrite 0%nat cmd; EvClose 0%nat; EvDial "cache:11211"] in
  let c' := mkClient [mkServer "cache:11211" (mkConn "cache:11211" None)] in
  Client_Set 4 single "k" "v" 0 broken
  = (Val (Some (Join ErrWriteFailed
                  (Join ErrWriteFailed (NetError "connection refused"))), c'),
     after broken lost)
  /\ Client_Get 4 c' "k" (after broken lost) = (Panic nil_deref, after broken lost).
Proof.
  intros cmd lost c'.
  assert (Hp : pickServer single "k"
               = Val (inl (O, mkServer "cache:11211" (mkConn "cache:11211" (Some O)))))
    by (vm_compute; reflexivity).
  pose proof (refused_redial_poisons_server 4 single "k" "v" "cache:11211"
                "cache:11211" 0 0%nat O broken "broken pipe" "connection refused"
                Hp eq_refl eq_refl) as H.
  exact (conj (proj1 H) (proj1 (proj2 H 4%nat "v" 0 (after broken lost)))).
Defined.

(** Two servers with one address: the later one's version is kept. *)
Lemma Versions_last_writer_wins_witness :
  let two := [node 0 "a:11211"; node 1 "a:11211"] in
  let cmd := "version" ++ CRLF in
  let w := world_of [ok_n 9; ok_data ("VERSION 1.5" ++ CRLF);
                     ok_n 9; ok_data ("VERSION 1.6" ++ CRLF)] in
  let w' := after w [EvWrite 0%nat cmd; EvRead 0%nat 4096;
                     EvWrite 1%nat cmd; EvRead 1%nat 4096] in
  exists m : gmap string string,
    Client_Versions 4 (mkClient two) w = (Val (Some m, None, mkClient two), w')
    /\ m !! "a:11211" = Some "VERSION 1.6".
Proof.
  intros two cmd w w'.
  assert (Ha : answered 4 cmd two w ["VERSION 1.5"; "VERSION 1.6"] two w').
  { eapply ans_cons; [vm_compute; reflexivity|].
    eapply ans_cons; [vm_compute; reflexivity|].
    apply ans_nil. }
  destruct (proj1 (Versions_last_writer_wins 4 two two [] w w'
                     ["VERSION 1.5"; "VERSION 1.6"] Ha)) as (m & Hm & Hk).
  exists m. split; [exact Hm|]. rewrite Hk. reflexivity.
Defined.

(** Three lines of statistics, cut in the middle of a key; the value of
    [version] has a space, [pid] comes twice. *)
Lemma GetStats_tallies_lines_witness :
  let w := world_of [ok_n 7;
                     ok_data ("STAT pid 1" ++ CRLF ++ "STAT ver");
                     ok_data ("sion 1.6 beta" ++ CRLF ++ "STAT pid 2" ++ CRLF
                              ++ "END" ++ CRLF)] in
  let w' := after w [EvWrite 0%nat ("stats" ++ CRLF); EvRead 0%nat 4096;
                     EvRead 0%nat 4088] in
  exists m : gmap string string,
    Server_GetStats 6 cache w = (Val (Some m, None, cache), w')
    /\ m !! "pid" = Some "2"
    /\ m !! "version" = Some "1.6 beta".
Proof.
  intros w w'.
  pose (c := mkConn "cache:11211" (Some O)).
  pose (ls := ["STAT pid 1" ++ CRLF; "STAT version 1.6 beta" ++ CRLF;
               "STAT pid 2" ++ CRLF]).
  pose (kvs := [("pid", "1"); ("version", "1.6 beta"); ("pid", "2")]).
  assert (Hls : read_lines 6 (NewReader c) (after w [EvWrite 0%nat ("stats" ++ CRLF)])
                  ls (mkReader c ("END" ++ CRLF) None) w').
  { eapply rl_cons; [vm_compute; reflexivity|].
    eapply rl_cons; [vm_compute; reflexivity|].
    eapply rl_cons; [vm_compute; reflexivity|].
    apply rl_nil. }
  assert (Hkvs : Forall2 stat_line ls kvs).
  { repeat (constructor; [split; reflexivity|]). constructor. }
  assert (Hfuel : (List.length ls < 6)%nat) by (apply Nat.ltb_lt; reflexivity).
  pose proof (proj1 (GetStats_tallies_lines 6 "cache:11211" "cache:11211" 0%nat
                       w w' w' (mkReader c ("END" ++ CRLF) None)
                       (mkReader c EmptyString None) ls kvs ("END" ++ CRLF) None
                       eq_refl Hls Hkvs Hfuel eq_refl) eq_refl eq_refl) as H.
  exists (list_to_map (rev kvs)).
  exact (conj H (conj eq_refl eq_refl)).
Defined.

(** Two lines, then the stream breaks and the redial is refused: [Extra]
    returns the two lines with the error. *)
Lemma Extra_collects_lines_witness :
  let w := world_of [ok_n 11; ok_data ("a 1" ++ CRLF ++ " b"); ok_data (" 2 " ++ CRLF);
                     failure "reset"; ok_n 0; failure "refused"] in
  let w' := after w [EvWrite 0%nat "stats items"; EvRead 0%nat 4096; EvRead 0%nat 4094;
                     EvRead 0%nat 4096; EvClose 0%nat; EvDial "cache:11211"] in
  Server_Extra 6 cache "stats items" w
  = (Val ("a 1" ++ String LF ("b 2" ++ String LF EmptyString),
          Some (Join ErrReadFailed (NetError "refused")),
          mkServer "cache:11211" (mkConn "cache:11211" None)), w').
Proof.
  intros w w'.
  pose (c := mkConn "cache:11211" (Some O)).
  pose (ls := ["a 1" ++ CRLF; " b 2 " ++ CRLF]).
  pose (w1 := after w [EvWrite 0%nat "stats items"; EvRead 0%nat 4096;
                       EvRead 0%nat 4094]).
  assert (Hls : read_lines 6 (NewReader c) (after w [EvWrite 0%nat "stats items"])
                  ls (mkReader c EmptyString None) w1).
  { eapply rl_cons; [vm_compute; reflexivity|].
    eapply rl_cons; [vm_compute; reflexivity|].
    apply rl_nil. }
  assert (Hnot : Forall (fun l => TrimSpace l <> "END") ls).
  { repeat (constructor; [vm_compute; discriminate|]). constructor. }
  assert (Hfuel : (List.length ls < 6)%nat) by (apply Nat.ltb_lt; reflexivity).
  assert (Hlast : ReadString (6 - List.length ls) (mkReader c EmptyString None) LF w1
                  = (Val (EmptyString, Some (NetError "refused"),
                          mkReader (mkConn "cache:11211" None) EmptyString None), w'))
    by (vm_compute; reflexivity).
  exact (proj2 (Extra_collects_lines 6 "cache:11211" "cache:11211" "stats items" 0%nat
                  w w1 w' (mkReader c EmptyString None) _ ls EmptyString
                  (Some (NetError "refused")) eq_refl Hls Hnot Hfuel Hlast)
           (NetError "refused") eq_refl).
Defined.

(** Two addresses dialed, then [QuitAll]. *)
Lemma NewClient_then_QuitAll_witness :
  let addresses := ["a:11211"; "b:11211"] in
  let w := world_of [ok_n 0; ok_n 0; ok_n 0; ok_n 0] in
  let c := mkClient [node 0 "a:11211"; node 1 "b:11211"] in
  let w' := after w [EvDial "a:11211"; EvDial "b:11211"] in
  NewClient addresses w = (Val (inl c), w')
  /\ Client_QuitAll c w'
     = (Val (None, mkClient []),
        after w [EvDial "a:11211"; EvDial "b:11211"; EvClose 0%nat; EvClose 1%nat]).
Proof.
  intros addresses w c w'.
  assert (Hnew : NewClient addresses w = (Val (inl c), w')) by reflexivity.
  exact (conj Hnew (proj2 (NewClient_then_QuitAll addresses c w w' Hnew))).
Defined.

(** The second of three addresses refuses the dial. *)
Lemma NewClient_failure_closes_nothing_witness :
  let w := world_of [ok_n 0; failure "connection refused"] in
  NewClient ["a:11211"; "b:11211"; "c:11211"] w
  = (Val (inr (NetError "connection refused")),
     after w [EvDial "a:11211"; EvDial "b:11211"]).
Proof.
  intros w.
  refine (NewClient_failure_closes_nothing ["a:11211"; "b:11211"; "c:11211"] 1
            "connection refused" w _ _ eq_refl).
  - intros i Hi. destruct i as [|i]; [reflexivity|].
    exfalso. exact (Nat.nlt_0_r i (proj2 (Nat.succ_lt_mono i 0) Hi)).
  - apply Nat.ltb_lt. reflexivity.
Defined.
